(** * DatabaseReader: implicit relationship inference (src/main.py)

    A shallow embedding of [DatabaseAnalyzer] and the properties of its
    inference engine.

    Conventions of the embedding:
    - a Python [str] is a [string]; a character is a code point below 256
      (ASCII and Latin-1), on which [str.lower] maps one character to one
      character and the flag [re.IGNORECASE] adds no match beyond the two
      cases of an ASCII letter; the name of a table or of a column is such
      a [str];
    - a Python [float] is a binary64 [float] of the kernel, so [0.7 + 0.2]
      is the double Python computes;
    - a [dict] read by key is a [gmap]; a [dict] that the code iterates in
      insertion order is an association list; a [set] is a [gset];
    - code that can raise returns a [result]; [try ... except Exception] is
      [try_except];
    - SQLAlchemy is the environment: an [Engine] records what reflection,
      inspection and a scalar query answer for one database, which the
      analysis only reads. *)

From Stdlib Require Import PrimFloat Ascii String.
From stdpp Require Import gmap strings list fin_maps.

Set Warnings "-inexact-float".

(** ** Characters and strings *)

Module Str.

Definition code (c : ascii) : N := N_of_ascii c.

Definition in_range (lo hi : N) (c : ascii) : bool :=
  ((lo <=? code c) && (code c <=? hi))%N.

(** [str.lower] on one character: [A-Z], and the Latin-1 capitals
    U+00C0..U+00DE without the multiplication sign U+00D7. *)
Definition lower_char (c : ascii) : ascii :=
  if in_range 65 90 c || (in_range 192 222 c && negb (code c =? 215)%N)
  then ascii_of_N (code c + 32)
  else c.

Fixpoint lower (s : string) : string :=
  match s with
  | "" => ""
  | String c r => String (lower_char c) (lower r)
  end.

(** The class [\w] of a [str] pattern: [[A-Za-z0-9_]] and the Latin-1
    characters that Python counts as alphanumeric. *)
Definition is_word (c : ascii) : bool :=
  in_range 48 57 c || in_range 65 90 c || in_range 97 122 c
  || (code c =? 95)%N
  || (code c =? 170)%N || in_range 178 179 c || (code c =? 181)%N
  || in_range 185 186 c || in_range 188 190 c
  || in_range 192 214 c || in_range 216 246 c || in_range 248 255 c.

Definition is_vowel (c : ascii) : bool :=
  match c with
  | "a" | "e" | "i" | "o" | "u" => true
  | _ => false
  end%char.

(** Every occurrence of a character of the class [p] removed:
    [s.replace(c, '')] and [re.sub('[...]', '', s)]. *)
Fixpoint remove (p : ascii → bool) (s : string) : string :=
  match s with
  | "" => ""
  | String c r => if p c then remove p r else String c (remove p r)
  end.

Definition is_underscore (c : ascii) : bool :=
  match c with "_"%char => true | _ => false end.

Fixpoint all (p : ascii → bool) (s : string) : bool :=
  match s with
  | "" => true
  | String c r => p c && all p r
  end.

Definition nl : string := String "010" "".

End Str.

(** ** The regular expressions of the source

    A pattern is matched the way the backtracking matcher of [re] does it:
    a piece of a pattern takes the text at the current position and a
    continuation for what follows, and answers with the first success in
    the matcher's order (alternatives left to right, a greedy repetition
    longest first). *)

Module Re.
Import Str.

(** A literal at the head of [s]; what is left of [s] after it. *)
Fixpoint lit (p s : string) : option string :=
  match p, s with
  | "", _ => Some s
  | String a p', String c s' => if decide (a = c) then lit p' s' else None
  | String _ _, "" => None
  end.

(** The same under [re.IGNORECASE], for a lower-case literal. *)
Fixpoint lit_ci (p s : string) : option string :=
  match p, s with
  | "", _ => Some s
  | String a p', String c s' =>
      if decide (a = lower_char c) then lit_ci p' s' else None
  | String _ _, "" => None
  end.

(** [$] without [re.MULTILINE]: at the end of the text, or just before a
    line break that is its last character. *)
Definition at_end (s : string) : bool :=
  bool_decide (s = "") || bool_decide (s = nl).

Definition eos (s : string) : option string :=
  if at_end s then Some s else None.

(** [(?:p1|p2|...)] followed by [k]: the first alternative after which
    [k] succeeds. *)
Fixpoint alt {A} (m : string → string → option string) (ps : list string)
    (k : string → option A) (s : string) : option A :=
  match ps with
  | [] => None
  | p :: ps' =>
      match m p s ≫= k with
      | Some a => Some a
      | None => alt m ps' k s
      end
  end.

(** [(\w+)] followed by [k]: the longest run of word characters, of
    length at least one, after which [k] succeeds; the run is the
    captured group. *)
Fixpoint word_plus {A} (k : string → option A) (s : string)
    : option (string * A) :=
  match s with
  | "" => None
  | String c r =>
      if is_word c then
        match word_plus k r with
        | Some (w, a) => Some (String c w, a)
        | None =>
            match k r with
            | Some a => Some (String c "", a)
            | None => None
            end
        end
      else None
  end.

(** [re.compile(r'^(?:p1|p2)(\w+)$', re.IGNORECASE)]: [match] and then
    [group(1)]. *)
Definition prefixed (ps : list string) (s : string) : option string :=
  fst <$> alt lit_ci ps (word_plus eos) s.

(** [re.compile(r'^(\w+)_(?:q1|q2|...)$', re.IGNORECASE)]: [match] and
    then [group(1)]. *)
Definition suffixed (qs : list string) (s : string) : option string :=
  fst <$> word_plus (λ r, lit_ci "_" r ≫= alt lit_ci qs eos) s.

(** [re.sub(r'^(p1|p2|...)', '', s)]: the pattern can only match at
    position 0, so at most one occurrence is replaced. *)
Definition sub_prefix (ps : list string) (s : string) : string :=
  default s (alt lit ps Some s).

(** The pattern [(q1|q2|...)$] tried at the head of [s]: what is left of
    [s] after the match. *)
Definition suffix_here (qs : list string) (s : string) : option string :=
  alt lit qs eos s.

(** [re.search] for [(q1|q2|...)$]: is there a match anywhere in [s]. *)
Fixpoint search_suffix (qs : list string) (s : string) : bool :=
  match suffix_here qs s with
  | Some _ => true
  | None =>
      match s with
      | "" => false
      | String _ r => search_suffix qs r
      end
  end.

(** [re.sub(r'(q1|q2|...)$', '', s)] for non-empty [q]s: the text is
    scanned from the left; the leftmost match is removed, and what is
    left after it (nothing, or the final line break) holds no further
    match. *)
Fixpoint sub_suffix (qs : list string) (s : string) : string :=
  match suffix_here qs s with
  | Some rest => rest
  | None =>
      match s with
      | "" => ""
      | String c r => String c (sub_suffix qs r)
      end
  end.

End Re.

(** ** Name normalisation and variations *)

(** [DatabaseAnalyzer._normalize_table_name]. *)
Definition _normalize_table_name (name : string) : string :=
  let name :=
    Re.sub_prefix ["dim_"; "tb_"; "tbl_"; "tab_"; "fact_"; "fato_"]
      (Str.lower name) in
  let name := Re.sub_suffix ["s"; "es"; "is"] name in
  Str.remove Str.is_underscore name.

(** [DatabaseAnalyzer._get_all_table_variations]. *)
Definition _get_all_table_variations (table_name : string) : gset string :=
  let variations : gset string := ∅ in
  let base_name := _normalize_table_name table_name in
  let variations := variations ∪ {[ base_name ]} in
  let variations := variations ∪ {[ base_name +:+ "s" ]} in
  let variations := variations ∪ {[ base_name +:+ "es" ]} in
  let variations := variations ∪ {[ Str.remove Str.is_vowel base_name ]} in
  variations.


(** ** Exceptions and loops *)

(** A raised exception: its class and its message. Only subclasses of
    [Exception] are modelled. *)
Record exn := { exn_class : string; exn_message : string }.

Inductive result (A : Type) : Type :=
  | Ok (a : A)
  | Raise (e : exn).
Arguments Ok {A} a.
Arguments Raise {A} e.

Global Instance result_ret : MRet result := @Ok.
Global Instance result_bind : MBind result := λ A B f m,
  match m with
  | Ok a => f a
  | Raise e => Raise e
  end.

(** [try: body except Exception as e: handler]. *)
Definition try_except {A} (body : result A) (handler : exn → result A)
    : result A :=
  match body with
  | Ok a => Ok a
  | Raise e => handler e
  end.

(** [for x in l: body], the body updating the state [s]; an exception in
    the body leaves the loop. *)
Fixpoint for_in {A S} (l : list A) (s : S) (body : S → A → result S)
    : result S :=
  match l with
  | [] => Ok s
  | x :: l' => s' ← body s x; for_in l' s' body
  end.

(** [d.get(k, default)] on a dictionary written as a literal. *)
Fixpoint dict_get {V} (d : list (string * V)) (k : string) (dflt : V) : V :=
  match d with
  | [] => dflt
  | (k', v) :: d' => if decide (k' = k) then v else dict_get d' k dflt
  end.

(** [d[k] = v] on a dictionary kept in insertion order: a key that is
    present keeps its place. *)
Fixpoint dict_set {V} (d : list (string * V)) (k : string) (v : V)
    : list (string * V) :=
  match d with
  | [] => [(k, v)]
  | (k', v') :: d' =>
      if decide (k' = k) then (k', v) :: d' else (k', v') :: dict_set d' k v
  end.

(** [min(a, b)] of Python: the first argument unless the second is
    smaller. *)
Definition py_min (a b : float) : float :=
  if PrimFloat.ltb b a then b else a.

(** ** The catalog and the SQLAlchemy environment *)

(** [sqlalchemy.Column]: [foreign_keys] is the set of declared foreign
    keys, each written as its target [table.column]. *)
Record Column := {
  name : string;
  foreign_keys : gset string
}.

Record Table := { columns : list Column }.

(** [MetaData.tables]: table key to [Table], in the order of reflection. *)
Record MetaData := { tables : list (string * Table) }.

Record Inspector := { inspected : unit }.

Record Logger := { logger_name : string }.

(** One database seen through an engine:
    [reflect] is what [MetaData.reflect(bind=engine)] finds or raises,
    [inspect] what [inspect(engine)] returns or raises, and
    [execute_scalar q] what [engine.execute(q).scalar()] returns or
    raises. A scalar that is not a number makes the comparison of line 142
    raise inside the same [try], and is a [Raise] here. *)
Record Engine := {
  reflect : result (list (string * Table));
  inspect : result Inspector;
  execute_scalar : string → result Z
}.

Record DatabaseAnalyzer := {
  url : string;
  engine : Engine;
  metadata : MetaData;
  inspector : Inspector;
  logger : Logger;
  relation_patterns : list (string * (string → option string))
}.

(** [Logger.error] and [Logger.warning] write to the log stream, which is
    not part of the model, and return. *)
Definition log_error (l : Logger) (msg : string) : result unit := Ok ().
Definition log_warning (l : Logger) (msg : string) : result unit := Ok ().

(** Reading [self.logger] while the attribute may not be assigned yet. *)
Definition getattr_logger (l : option Logger) : result Logger :=
  match l with
  | Some lg => Ok lg
  | None =>
      Raise {| exn_class := "AttributeError";
               exn_message :=
                 "'DatabaseAnalyzer' object has no attribute 'logger'" |}
  end.

(** [DatabaseAnalyzer._get_all_metadata]. The method reads two attributes
    of [self]: [engine], and [logger] in the handler. *)
Definition _get_all_metadata (self_engine : Engine)
    (self_logger : option Logger) : result MetaData :=
  try_except
    (found ← reflect self_engine;
     Ok {| tables := found |})
    (λ e,
       lg ← getattr_logger self_logger;
       _ ← log_error lg ("Erro ao obter metadados: " +:+ exn_message e);
       Raise e).

(** The six compiled patterns of [__init__], in the order of the
    dictionary; a pattern is its [match] followed by [group(1)]. *)
Definition compiled_patterns : list (string * (string → option string)) :=
  [ ("id_pattern", Re.prefixed ["id_"; "id"]);
    ("fk_pattern", Re.prefixed ["fk_"; "fk"]);
    ("table_id_pattern", Re.suffixed ["id"; "cd"; "codigo"]);
    ("ref_pattern", Re.prefixed ["ref_"; "reference_"]);
    ("cod_pattern", Re.prefixed ["cod_"; "codigo_"]);
    ("num_pattern", Re.prefixed ["num_"; "numero_"]) ].

(** ** Confidence *)

Definition pattern_confidence : list (string * float) :=
  [ ("id_pattern", 0.8); ("fk_pattern", 0.9); ("table_id_pattern", 0.85);
    ("ref_pattern", 0.7); ("cod_pattern", 0.6); ("num_pattern", 0.5)
  ]%float.

Definition indent (n : nat) : string :=
  string_of_list_ascii (replicate n " "%char).

(** The f-string of lines 134-139. *)
Definition overlap_query (source_table target_table column_name : string)
    : string :=
  Str.nl
  +:+ indent 16 +:+ "SELECT COUNT(DISTINCT a." +:+ column_name
  +:+ ") as match_count" +:+ Str.nl
  +:+ indent 16 +:+ "FROM " +:+ source_table +:+ " a" +:+ Str.nl
  +:+ indent 16 +:+ "LEFT JOIN " +:+ target_table +:+ " b ON a."
  +:+ column_name +:+ " = b.id" +:+ Str.nl
  +:+ indent 16 +:+ "WHERE b.id IS NOT NULL" +:+ Str.nl
  +:+ indent 12.

(** [DatabaseAnalyzer._calculate_relationship_confidence]. *)
Definition _calculate_relationship_confidence (self : DatabaseAnalyzer)
    (source_table target_table column_name pattern_type : string)
    : result float :=
  let confidence := dict_get pattern_confidence pattern_type 0.3%float in
  confidence ← try_except
    (let query := overlap_query source_table target_table column_name in
     count ← execute_scalar (engine self) query;
     if (0 <? count)%Z then Ok (confidence + 0.2)%float else Ok confidence)
    (λ e,
       _ ← log_warning (logger self)
             ("Erro ao verificar valores correspondentes: "
              +:+ exn_message e);
       Ok confidence);
  Ok (py_min 1 confidence).

(** ** Relationship inference *)

(** One entry of the lists of [find_implicit_relationships]. *)
Record Candidate := {
  source_column : string;
  target_table : string;
  pattern_matched : string;
  confidence : float;
  suggested_relationship : string
}.

(** [relationships[k].append(c)] on a [defaultdict(list)]. *)
Definition append_to (relationships : gmap string (list Candidate))
    (k : string) (c : Candidate) : gmap string (list Candidate) :=
  <[ k := default [] (relationships !! k) ++ [c] ]> relationships.

(** The comprehension of lines 65-66: a later table replaces an earlier
    one with the same normalised name. *)
Definition table_names_step (d : gmap string string) (name : string)
    : gmap string string :=
  <[ _normalize_table_name name := name ]> d.

Definition table_names_of (keys : list string) : gmap string string :=
  foldl table_names_step ∅ keys.

(** Lines 78-81: one pattern tried on a column name. *)
Definition matches_step (column_name : string)
    (matches : list (string * string))
    (entry : string * (string → option string)) : list (string * string) :=
  let '(pattern_name, pattern) := entry in
  match pattern column_name with
  | Some matched_part => dict_set matches pattern_name matched_part
  | None => matches
  end.

(** Lines 75-81: the patterns that match a column name, with the text
    each one captures. *)
Definition matches_of (patterns : list (string * (string → option string)))
    (column_name : string) : list (string * string) :=
  foldl (matches_step column_name) [] patterns.

(** [DatabaseAnalyzer.find_implicit_relationships]. The variations are
    visited in the order [elements] lists them; Python fixes no order for
    a set of strings. The test [if matches:] of line 83 guards a loop that
    does nothing on an empty dictionary. *)
Definition find_implicit_relationships (self : DatabaseAnalyzer)
    : result (gmap string (list Candidate)) :=
  let relationships : gmap string (list Candidate) := ∅ in
  let table_names := table_names_of (tables (metadata self)).*1 in
  for_in (tables (metadata self)) relationships
    (λ relationships '(source_table_name, table),
      for_in (columns table) relationships
        (λ relationships column,
          let column_name := Str.lower (name column) in
          if bool_decide (foreign_keys column ≠ ∅) then Ok relationships
          else
            let matches := matches_of (relation_patterns self) column_name in
            for_in matches relationships
              (λ relationships '(pattern_name, matched_part),
                let possible_table_variations :=
                  _get_all_table_variations matched_part in
                for_in (elements possible_table_variations) relationships
                  (λ relationships variation,
                    match table_names !! variation with
                    | None => Ok relationships
                    | Some target_table =>
                        if decide (target_table = source_table_name)
                        then Ok relationships
                        else
                          confidence ←
                            _calculate_relationship_confidence self
                              source_table_name target_table column_name
                              pattern_name;
                          Ok (append_to relationships source_table_name
                                {| source_column := column_name;
                                   target_table := target_table;
                                   pattern_matched := pattern_name;
                                   confidence := confidence;
                                   suggested_relationship :=
                                     source_table_name +:+ "." +:+ column_name
                                     +:+ " -> " +:+ target_table +:+ ".id"
                                |})
                    end)))).

(** ** The report *)

Record Statistics := {
  total_implicit_relationships : nat;
  tables_with_implicit_relations : nat;
  high_confidence_relations : nat
}.

(** An entry of [recommendations], as the disabled lines 169-182 would
    build it. *)
Record Recommendation := {
  rec_type : string;
  rec_message : string;
  rec_confidence : float
}.

Record Analysis := {
  relationships : gmap string (list Candidate);
  statistics : Statistics;
  recommendations : list Recommendation
}.

(** [d.values()], in the order of [map_to_list] and not in the order of
    insertion; the statistics only sum over it. *)
Definition values {V} (d : gmap string V) : list V := (map_to_list d).*2.

(** [DatabaseAnalyzer.analyze_and_suggest_relationships]. *)
Definition analyze_and_suggest_relationships (self : DatabaseAnalyzer)
    : result Analysis :=
  implicit_relations ← find_implicit_relationships self;
  Ok {| relationships := implicit_relations;
        statistics :=
          {| total_implicit_relationships :=
               sum_list_with length (values implicit_relations);
             tables_with_implicit_relations := size implicit_relations;
             high_confidence_relations :=
               sum_list
                 (rels ← values implicit_relations;
                  rel ← rels;
                  if PrimFloat.leb 0.8 (confidence rel) then [1] else [])
          |};
        recommendations := [] |}.

(** ** Construction and the main program *)

Section Program.

(** [sqlalchemy.create_engine]. *)
Variable create_engine : string → result Engine.

(** [DatabaseAnalyzer.__init__]. When line 15 calls
    [_get_all_metadata], [self.logger] is not assigned yet: that is done
    on line 19. *)
Definition __init__ (url : string) : result DatabaseAnalyzer :=
  self_engine ← create_engine url;
  self_metadata ← _get_all_metadata self_engine None;
  self_inspector ← inspect self_engine;
  let self_logger := {| logger_name := "__main__" |} in
  Ok {| url := url;
        engine := self_engine;
        metadata := self_metadata;
        inspector := self_inspector;
        logger := self_logger;
        relation_patterns := compiled_patterns |}.

(** Lines 197-198 of the main program: build the analyzer, then run the
    analysis. *)
Definition main (database_url : string) : result Analysis :=
  analyzer ← __init__ database_url;
  analyze_and_suggest_relationships analyzer.

(** Lines 189-198, the block under [if __name__ == "__main__"] up to the
    analysis: [environ] is [os.environ] once [load_dotenv()] has run, a
    mapping whose keys are case-sensitive as on POSIX. The test
    [if not database_url] takes a missing variable and an empty one
    alike. *)
Definition __main__ (environ : gmap string string) : result Analysis :=
  let database_url := environ !! "database_url" in
  if bool_decide (database_url = None ∨ database_url = Some "") then
    Raise {| exn_class := "ValueError";
             exn_message :=
               "DATABASE_URL n" +:+ String "227" "o encontrada nas vari"
               +:+ String "225" "veis de ambiente" |}
  else main (default "" database_url).

End Program.

(** ** The sample database of src/fake_database.py

    The five tables that the generator writes with [to_sql], which
    declares no foreign key. No table has a column [id], so the database
    rejects every overlap query of the analyzer. *)

Module Sample.

Definition col (n : string) : Column :=
  {| name := n; foreign_keys := ∅ |}.

Definition table (names : list string) : Table :=
  {| columns := col <$> names |}.

Definition dim_tempo : Table :=
  table ["id_tempo"; "data"; "dia"; "mes"; "ano"; "dia_semana";
         "trimestre"].

Definition dim_produto : Table :=
  table ["id_produto"; "nome_produto"; "categoria"; "subcategoria";
         "preco_base"; "peso"].

Definition dim_loja : Table :=
  table ["id_loja"; "nome_loja"; "estado"; "cidade"; "regiao";
         "tamanho_m2"].

Definition dim_cliente : Table :=
  table ["id_cliente"; "nome_cliente"; "segmento"; "idade"; "genero";
         "cidade"].

Definition fato_vendas : Table :=
  table ["id_venda"; "id_tempo"; "id_produto"; "id_loja"; "id_cliente";
         "quantidade"; "valor_unitario"; "desconto"; "custo_unitario";
         "valor_total"; "custo_total"; "margem"].

Definition catalog : list (string * Table) :=
  [ ("dim_cliente", dim_cliente); ("dim_loja", dim_loja);
    ("dim_produto", dim_produto); ("dim_tempo", dim_tempo);
    ("fato_vendas", fato_vendas) ].

Definition no_such_column : exn :=
  {| exn_class := "ProgrammingError";
     exn_message := "column b.id does not exist" |}.

(** A database that holds the tables [found] and gives [answer] to a
    scalar query. *)
Definition engine_on (found : list (string * Table))
    (answer : string → result Z) : Engine :=
  {| reflect := Ok found;
     inspect := Ok {| inspected := () |};
     execute_scalar := answer |}.

(** The database of the generator, with the answer to scalar queries left
    open. *)
Definition engine_with (answer : string → result Z) : Engine :=
  engine_on catalog answer.

(** The answers of three databases with these tables: the one of
    the generator, which rejects every overlap query; one that counts
    [n] matching values; one that finds none. *)
Definition rejecting : string → result Z := λ _, Raise no_such_column.
Definition counting (n : Z) : string → result Z := λ _, Ok n.

(** A database whose reflection fails. *)
Definition unreachable : Engine :=
  {| reflect := Raise {| exn_class := "OperationalError";
                         exn_message := "could not connect to server" |};
     inspect := Ok {| inspected := () |};
     execute_scalar := counting 0 |}.

Definition location : string := "postgresql://localhost/vendas".

(** [create_engine] for a single database. *)
Definition connect (db : Engine) (url : string) : result Engine := Ok db.

(** The analyzer that [__init__] builds on such a database. *)
Definition analyzer_on (found : list (string * Table))
    (answer : string → result Z) : DatabaseAnalyzer :=
  {| url := location;
     engine := engine_on found answer;
     metadata := {| tables := found |};
     inspector := {| inspected := () |};
     logger := {| logger_name := "__main__" |};
     relation_patterns := compiled_patterns |}.

Definition analyzer_of (answer : string → result Z) : DatabaseAnalyzer :=
  analyzer_on catalog answer.

End Sample.

(** ** A catalog with declared foreign keys

    An order table next to the tables it refers to: one column with a
    declared foreign key, and columns of the shapes [fk_<x>], [id_<x>] in
    mixed case, [<x>_codigo] and [numero_<x>]. *)

Module Orders.

Definition fk (n target : string) : Column :=
  {| name := n; foreign_keys := {[ target ]} |}.

Definition pedidos : Table :=
  {| columns :=
       [ Sample.col "id"; fk "cliente_id" "cliente.id";
         Sample.col "ID_Cliente"; Sample.col "fk_produto";
         Sample.col "numero_nota"; Sample.col "produto_codigo" ] |}.

Definition order_catalog : list (string * Table) :=
  [ ("cliente", Sample.table ["id"; "nome"]);
    ("dim_produto", Sample.table ["id"; "descricao"]);
    ("pedidos", pedidos) ].

Definition order_analyzer (answer : string → result Z) : DatabaseAnalyzer :=
  Sample.analyzer_on order_catalog answer.

(** The catalog of the generator followed by a second table whose
    normalised name is [cliente]. *)
Definition colliding : list (string * Table) :=
  Sample.catalog ++ [("tb_cliente", Sample.table ["id"; "nome"])].

(** The same table put before the catalog of the generator. *)
Definition preceded : list (string * Table) :=
  ("tb_cliente", Sample.table ["id"; "nome"]) :: Sample.catalog.

End Orders.


(** ** Notions used in the statements

    What follows is not code of the analyzer: these are the notions in
    which its properties are stated and proved. *)

Definition lower_fixed (c : ascii) : bool :=
  bool_decide (Str.lower_char c = c).

Definition not_underscore (c : ascii) : bool := negb (Str.is_underscore c).

(** The appends [L] of a run applied one after the other to [r]. *)
Definition collect (r : gmap string (list Candidate))
    (L : list (string * Candidate)) : gmap string (list Candidate) :=
  foldl (λ r p, append_to r p.1 p.2) r L.

Definition no_empty_list (r : gmap string (list Candidate)) : Prop :=
  ∀ k l, r !! k = Some l → l ≠ [].

(** The weight of line 130. *)
Definition base_weight (pattern_type : string) : float :=
  dict_get pattern_confidence pattern_type 0.3%float.

(** The answer of the database to the overlap query of a candidate. *)
Definition sampled (self : DatabaseAnalyzer)
    (source_table target_table column_name : string) : result Z :=
  execute_scalar (engine self)
    (overlap_query source_table target_table column_name).

(** The bonus of lines 142-143: 0.2 when the overlap query counts at least
    one matching value, nothing when it counts none or raises. *)
Definition bonus (self : DatabaseAnalyzer)
    (source_table target_table column_name : string) : float :=
  match sampled self source_table target_table column_name with
  | Ok count => if (0 <? count)%Z then 0.2%float else 0%float
  | Raise _ => 0%float
  end.

(** The value [_calculate_relationship_confidence] returns. *)
Definition score (self : DatabaseAnalyzer)
    (source_table target_table column_name pattern_type : string) : float :=
  let base := base_weight pattern_type in
  py_min 1
    match sampled self source_table target_table column_name with
    | Ok count => if (0 <? count)%Z then (base + 0.2)%float else base
    | Raise _ => base
    end.

(** The dictionary that lines 100-106 append. *)
Definition candidate (self : DatabaseAnalyzer)
    (source_table_name column_name target pattern_name : string)
    : Candidate :=
  {| source_column := column_name;
     target_table := target;
     pattern_matched := pattern_name;
     confidence :=
       score self source_table_name target column_name pattern_name;
     suggested_relationship :=
       source_table_name +:+ "." +:+ column_name +:+ " -> "
       +:+ target +:+ ".id" |}.

Definition table_names (self : DatabaseAnalyzer) : gmap string string :=
  table_names_of (tables (metadata self)).*1.

(** The appends of one run, in the order of the four loops: source
    table and candidate. *)
Definition emit_variation (self : DatabaseAnalyzer)
    (source_table_name column_name pattern_name variation : string)
    : list (string * Candidate) :=
  match table_names self !! variation with
  | None => []
  | Some target =>
      if decide (target = source_table_name) then []
      else [(source_table_name,
             candidate self source_table_name column_name target
               pattern_name)]
  end.

Definition emit_match (self : DatabaseAnalyzer)
    (source_table_name column_name : string) (entry : string * string)
    : list (string * Candidate) :=
  elements (_get_all_table_variations entry.2)
  ≫= emit_variation self source_table_name column_name entry.1.

Definition emit_column (self : DatabaseAnalyzer) (source_table_name : string)
    (column : Column) : list (string * Candidate) :=
  if bool_decide (foreign_keys column ≠ ∅) then []
  else
    matches_of (relation_patterns self) (Str.lower (name column))
    ≫= emit_match self source_table_name (Str.lower (name column)).

Definition emit_table (self : DatabaseAnalyzer) (entry : string * Table)
    : list (string * Candidate) :=
  columns entry.2 ≫= emit_column self entry.1.

Definition emitted (self : DatabaseAnalyzer) : list (string * Candidate) :=
  tables (metadata self) ≫= emit_table self.

(** The conditions of lines 68-91 under which the loops reach the call of
    the scorer for a column, a pattern and a target table; the overlap
    query has no part in them. *)
Definition resolves (self : DatabaseAnalyzer) (t : string) (column : Column)
    (p target : string) : Prop :=
  ∃ table g v,
    (t, table) ∈ tables (metadata self)
    ∧ column ∈ columns table
    ∧ foreign_keys column = ∅
    ∧ (p, g) ∈ matches_of (relation_patterns self) (Str.lower (name column))
    ∧ v ∈ _get_all_table_variations g
    ∧ table_names self !! v = Some target
    ∧ target ≠ t.

(** The catalog without the columns that carry a declared foreign key. *)
Definition drop_declared_fk (table : Table) : Table :=
  {| columns := filter (λ column, foreign_keys column = ∅) (columns table) |}.

Definition without_declared_fk (self : DatabaseAnalyzer) : DatabaseAnalyzer :=
  {| url := url self;
     engine := engine self;
     metadata :=
       {| tables := prod_map id drop_declared_fk <$> tables (metadata self) |};
     inspector := inspector self;
     logger := logger self;
     relation_patterns := relation_patterns self |}.

(** The entry of [matches] that one pattern contributes for a column
    name. *)
Definition entry_of (column_name : string)
    (entry : string * (string → option string)) : option (string * string) :=
  (λ g, (entry.1, g)) <$> entry.2 column_name.

(** The overlap query of a candidate counted at least one value. *)
Definition confirmed (self : DatabaseAnalyzer) (t : string) (c : Candidate)
    : Prop :=
  ∃ count,
    sampled self t (target_table c) (source_column c) = Ok count
    ∧ (0 < count)%Z.

(** Two candidates that agree on everything but the confidence. *)
Definition same_but_confidence (c c' : Candidate) : Prop :=
  source_column c = source_column c'
  ∧ target_table c = target_table c'
  ∧ pattern_matched c = pattern_matched c'
  ∧ suggested_relationship c = suggested_relationship c'.

(** Two views of the outcome of a run: for a source table, the
    description, the pattern and the confidence of each candidate; and the
    statistics. *)
Definition candidates_view (r : result Analysis) (t : string)
    : option (list (string * string * float)) :=
  match r with
  | Ok report =>
      Some ((λ c, (suggested_relationship c, pattern_matched c, confidence c))
              <$> relationships report !!! t)
  | Raise _ => None
  end.

Definition statistics_view (r : result Analysis) : option Statistics :=
  match r with
  | Ok report => Some (statistics report)
  | Raise _ => None
  end.

(** A candidate counted by [high_confidence_relations]. *)
Definition is_high (rel : Candidate) : Prop :=
  PrimFloat.leb 0.8 (confidence rel) = true.

Global Instance is_high_dec rel : Decision (is_high rel).
Proof. unfold is_high. apply _. Defined.

(** A closed decidable proposition, settled by evaluation. *)
Ltac by_computation := apply (bool_decide_unpack _); vm_compute; exact I.

(** * Properties *)

(** ** The model on small inputs *)

Example normalize_dim_cliente :
  _normalize_table_name "dim_cliente" = "cliente".
Proof. reflexivity. Qed.

Example normalize_fato_vendas :
  _normalize_table_name "fato_vendas" = "venda".
Proof. reflexivity. Qed.

Example normalize_clientes :
  _normalize_table_name "TB_Clientes" = "client".
Proof. reflexivity. Qed.

Example normalize_line_break :
  _normalize_table_name ("ass" +:+ Str.nl) = "as" +:+ Str.nl.
Proof. reflexivity. Qed.

Example variations_cliente :
  _get_all_table_variations "cliente"
  = {[ "cliente"; "clientes"; "clientees"; "clnt" ]}.
Proof. vm_compute. reflexivity. Qed.

(** ** Facts about strings and patterns *)

Section StringFacts.
Import Str Re.

Lemma lower_char_idem c : lower_char (lower_char c) = lower_char c.
Proof. by destruct c as [[] [] [] [] [] [] [] []]. Qed.

Lemma app_nil b : "" +:+ b = b.
Proof. done. Qed.

Lemma app_cons c a b : String c a +:+ b = String c (a +:+ b).
Proof. done. Qed.

Lemma all_app p a b : all p (a +:+ b) = all p a && all p b.
Proof.
  induction a as [|c a IH]; [done|].
  rewrite app_cons. simpl. by rewrite IH, andb_assoc.
Qed.

Lemma all_lower s : all lower_fixed (lower s) = true.
Proof.
  induction s as [|c s IH]; simpl; [done|].
  rewrite IH, andb_true_r. apply bool_decide_eq_true, lower_char_idem.
Qed.

Lemma lower_id s : all lower_fixed s = true → lower s = s.
Proof.
  induction s as [|c s IH]; simpl; [done|].
  intros [Hc Hs]%andb_true_iff. apply bool_decide_eq_true in Hc.
  by rewrite Hc, IH.
Qed.

Lemma lit_Some p s r : lit p s = Some r → s = p +:+ r.
Proof.
  revert s. induction p as [|a p IH]; intros [|c s] H; simplify_eq/=;
    try done.
  case_decide; [|done]. subst. by apply IH in H as ->.
Qed.

(** What a match of the alternatives returns, for a continuation that
    returns the text it is given. *)
Lemma alt_lit_Some ps (k : string → option string) s r :
  (∀ x y, k x = Some y → x = y) →
  alt lit ps k s = Some r → ∃ p, p ∈ ps ∧ s = p +:+ r.
Proof.
  intros Hk. induction ps as [|p ps IH]; simpl; [done|].
  destruct (lit p s) as [r'|] eqn:Hp; simpl.
  - destruct (k r') as [r''|] eqn:Hr'.
    + intros [= <-]. apply Hk in Hr' as <-. apply lit_Some in Hp.
      exists p. split; [left | done].
    + intros (q & ? & ?)%IH. exists q. split; [by right | done].
  - intros (q & ? & ?)%IH. exists q. split; [by right | done].
Qed.

Lemma eos_id x y : eos x = Some y → x = y.
Proof. unfold eos. case_match; congruence. Qed.

Lemma all_sub_prefix p ps s :
  all p s = true → all p (sub_prefix ps s) = true.
Proof.
  intros Hs. unfold sub_prefix.
  destruct (alt lit ps Some s) as [r|] eqn:H; simpl; [|done].
  apply alt_lit_Some in H as (q & _ & ->); [|congruence].
  rewrite all_app in Hs. by apply andb_true_iff in Hs as [_ ?].
Qed.

Lemma all_sub_suffix p qs s :
  all p s = true → all p (sub_suffix qs s) = true.
Proof.
  induction s as [|c s IH]; simpl.
  - intros _. destruct (suffix_here qs "") as [r|] eqn:H; [|done].
    apply alt_lit_Some in H as (q & _ & Hq); [|apply eos_id].
    destruct q as [|a q]; [|by rewrite app_cons in Hq].
    rewrite app_nil in Hq. by subst.
  - intros Hs. destruct (suffix_here qs (String c s)) as [r|] eqn:H.
    + apply alt_lit_Some in H as (q & _ & Hq); [|apply eos_id].
      change (all p (String c s) = true) in Hs.
      rewrite Hq, all_app in Hs. by apply andb_true_iff in Hs as [_ ?].
    + simpl. apply andb_true_iff in Hs as [-> ?]. by apply IH.
Qed.

Lemma all_remove p q s : all p s = true → all p (remove q s) = true.
Proof.
  induction s as [|c s IH]; simpl; [done|].
  intros [Hc Hs]%andb_true_iff.
  destruct (q c); simpl; [by apply IH|]. by rewrite Hc, IH.
Qed.

Lemma all_removed q s : all (λ c, negb (q c)) (remove q s) = true.
Proof.
  induction s as [|c s IH]; simpl; [done|].
  destruct (q c) eqn:Hc; simpl; [done|]. by rewrite Hc, IH.
Qed.

Lemma remove_id q s : all (λ c, negb (q c)) s = true → remove q s = s.
Proof.
  induction s as [|c s IH]; simpl; [done|].
  intros [Hc Hs]%andb_true_iff. apply negb_true_iff in Hc.
  by rewrite Hc, IH.
Qed.

(** A text without underscore starts with none of the prefixes, which
    all hold one. *)
Lemma sub_prefix_id ps s :
  Forall (λ p, all not_underscore p = false) ps →
  all not_underscore s = true → sub_prefix ps s = s.
Proof.
  intros Hps Hs. unfold sub_prefix.
  destruct (alt lit ps Some s) as [r|] eqn:H; simpl; [|done].
  apply alt_lit_Some in H as (q & Hq & ->); [|congruence].
  rewrite Forall_forall in Hps. apply Hps in Hq.
  rewrite all_app, Hq in Hs. done.
Qed.

Lemma sub_suffix_id qs s : search_suffix qs s = false → sub_suffix qs s = s.
Proof.
  induction s as [|c s IH]; simpl.
  - by destruct (suffix_here qs "").
  - destruct (suffix_here qs (String c s)); [done|].
    intros H. by rewrite IH.
Qed.

Lemma normalize_lower name :
  all lower_fixed (_normalize_table_name name) = true.
Proof.
  unfold _normalize_table_name.
  apply all_remove, all_sub_suffix, all_sub_prefix, all_lower.
Qed.

Lemma normalize_no_underscore name :
  all not_underscore (_normalize_table_name name) = true.
Proof. apply all_removed. Qed.

Lemma length_app a b :
  String.length (a +:+ b) = String.length a + String.length b.
Proof.
  induction a as [|c a IH]; [done|]. rewrite app_cons. simpl. by rewrite IH.
Qed.

Lemma length_remove q s : String.length (remove q s) ≤ String.length s.
Proof.
  induction s as [|c s IH]; simpl; [done|]. destruct (q c); simpl; lia.
Qed.

(** A match of the alternatives, with what the continuation was given. *)
Lemma alt_lit_inv {A} ps (k : string → option A) s a :
  alt lit ps k s = Some a →
  ∃ p r, p ∈ ps ∧ s = p +:+ r ∧ k r = Some a.
Proof.
  induction ps as [|p ps IH]; simpl; [done|].
  destruct (lit p s) as [r|] eqn:Hp; simpl.
  - destruct (k r) as [a'|] eqn:Hr.
    + intros [= <-]. apply lit_Some in Hp. exists p, r. by repeat split; [left|..].
    + intros (q & r' & ? & ? & ?)%IH. exists q, r'. by repeat split; [right|..].
  - intros (q & r' & ? & ? & ?)%IH. exists q, r'. by repeat split; [right|..].
Qed.

Lemma search_suffix_cons qs c s :
  search_suffix qs (String c s)
  = match suffix_here qs (String c s) with
    | Some _ => true
    | None => search_suffix qs s
    end.
Proof. done. Qed.

(** The pattern [(s|es|is)$] is found in the texts that end in [s], a
    final line break put aside. *)
Lemma search_suffix_plural s :
  search_suffix ["s"; "es"; "is"] s = true
  ↔ ∃ r, s = r +:+ "s" ∨ s = r +:+ "s" +:+ nl.
Proof.
  split.
  - induction s as [|c s IH]; [done|].
    rewrite search_suffix_cons.
    destruct (suffix_here _ (String c s)) as [rest|] eqn:Hhere.
    + intros _. unfold suffix_here in Hhere.
      apply alt_lit_inv in Hhere as (q & r & Hq & -> & Hr).
      unfold eos, at_end in Hr.
      assert (r = "" ∨ r = nl) as Hend.
      { repeat case_bool_decide; simplify_eq/=; auto. }
      clear Hr.
      repeat (apply elem_of_cons in Hq as [->|Hq];
              [destruct Hend as [-> | ->];
               first [ by exists ""; auto | by exists "e"; auto
                     | by exists "i"; auto ] |]).
      by apply elem_of_nil in Hq.
    + intros [r [-> | ->]]%IH; exists (String c r); auto.
  - intros [r Hr]. revert s Hr.
    induction r as [|c r IH]; intros s [-> | ->]; [done..| |];
      rewrite app_cons, search_suffix_cons;
      (destruct (suffix_here _ _); [done|]); apply IH; auto.
Qed.

(** Where the pattern is found, the substitution removes something. *)
Lemma sub_suffix_shorter qs s :
  Forall (λ q, q ≠ "") qs →
  search_suffix qs s = true →
  String.length (sub_suffix qs s) < String.length s.
Proof.
  intros Hqs. rewrite Forall_forall in Hqs.
  assert (∀ s rest, suffix_here qs s = Some rest →
            String.length rest < String.length s) as Hhere.
  { intros s' rest (q & r & Hq & -> & <-%eos_id)%alt_lit_inv.
    rewrite length_app. apply Hqs in Hq. destruct q; [done|]. simpl. lia. }
  induction s as [|c s IH].
  - simpl. destruct (suffix_here qs "") as [rest|] eqn:H; [|done].
    apply Hhere in H. simpl in H. lia.
  - rewrite search_suffix_cons. simpl.
    destruct (suffix_here qs (String c s)) as [rest|] eqn:H.
    + intros _. by apply Hhere in H.
    + intros Hs. apply IH in Hs. simpl. lia.
Qed.

End StringFacts.

(** C4, as stated, fails: the second pass strips a second suffix,
    [address] gives [addres] and then [addr]. *)
Lemma normalize_not_idempotent :
  ¬ ∀ x : string,
      _normalize_table_name (_normalize_table_name x)
      = _normalize_table_name x.
Proof. intros H. specialize (H "address"). vm_compute in H. done. Qed.

(** C4, amended: normalisation is idempotent on every table name whose
    normalised form is not matched again by the suffix pattern
    [(s|es|is)$], that is, does not end in [s] (a final line break put
    aside). *)
Theorem normalize_idempotent_without_suffix (x : string) :
  Re.search_suffix ["s"; "es"; "is"] (_normalize_table_name x) = false →
  _normalize_table_name (_normalize_table_name x) = _normalize_table_name x.
Proof.
  intros Hsuffix.
  pose proof (normalize_lower x) as Hlow.
  pose proof (normalize_no_underscore x) as Hund.
  set (y := _normalize_table_name x) in *.
  unfold _normalize_table_name at 1.
  rewrite (lower_id y Hlow).
  rewrite (sub_prefix_id _ y); [|by repeat constructor|done].
  rewrite (sub_suffix_id _ y Hsuffix).
  by apply remove_id.
Qed.

(** C5, as stated, fails: the generator normalises its argument first, and
    [pais], itself the normalised form of [paises], loses its [is] on the
    way; none of [pa], [pas], [paes], [p] is [pais]. *)
Lemma variations_may_miss_token :
  ¬ ∀ token : string,
      _get_all_table_variations token ≠ ∅
      ∧ token ∈ _get_all_table_variations token.
Proof.
  intros H. destruct (H "pais") as [_ Hin].
  apply elem_of_elements in Hin. vm_compute in Hin.
  repeat (apply elem_of_cons in Hin as [Hin|Hin]; [discriminate Hin|]).
  by apply elem_of_nil in Hin.
Qed.

(** C5, amended: for every token the variation set is non-empty and
    contains the normalised form of the token. *)
Theorem variations_contain_normalized (token : string) :
  _get_all_table_variations token ≠ ∅
  ∧ _normalize_table_name token ∈ _get_all_table_variations token.
Proof. unfold _get_all_table_variations. set_solver. Qed.

(** The condition of the amended statement cannot be dropped: where the
    suffix pattern still matches the normalised form, a second pass gives
    a shorter text. *)
Lemma normalize_again_strips_more (x : string) :
  Re.search_suffix ["s"; "es"; "is"] (_normalize_table_name x) = true →
  _normalize_table_name (_normalize_table_name x) ≠ _normalize_table_name x.
Proof.
  intros Hsuffix.
  pose proof (normalize_lower x) as Hlow.
  pose proof (normalize_no_underscore x) as Hund.
  set (y := _normalize_table_name x) in *.
  unfold _normalize_table_name at 1.
  rewrite (lower_id y Hlow).
  rewrite (sub_prefix_id _ y); [|by repeat constructor|done].
  intros Heq. apply (f_equal String.length) in Heq.
  pose proof (length_remove Str.is_underscore
                (Re.sub_suffix ["s"; "es"; "is"] y)).
  assert (String.length (Re.sub_suffix ["s"; "es"; "is"] y) < String.length y).
  { apply sub_suffix_shorter; [|done]. by repeat constructor. }
  lia.
Qed.

(** ** Loops as folds *)

Section Loops.
Context {A B S : Type}.

(** A loop whose body applies [step] once for each element of [f x], in
    order, never raises, and applies [step] along the concatenation. *)
Lemma for_in_trace (step : S → B → S) (f : A → list B) (l : list A)
    (body : S → A → result S) :
  (∀ s x, x ∈ l → body s x = Ok (foldl step s (f x))) →
  ∀ s, for_in l s body = Ok (foldl step s (l ≫= f)).
Proof.
  induction l as [|x l IH]; intros Hbody s; simpl; [done|].
  rewrite Hbody by left. simpl. rewrite foldl_app.
  apply IH. intros s' y Hy. apply Hbody. by right.
Qed.

Lemma for_in_ext (l : list A) (body body' : S → A → result S) s :
  (∀ s x, x ∈ l → body s x = body' s x) →
  for_in l s body = for_in l s body'.
Proof.
  revert s. induction l as [|x l IH]; intros s Hbody; simpl; [done|].
  rewrite Hbody by left. destruct (body' s x); simpl; [|done].
  apply IH. intros s' y Hy. apply Hbody. by right.
Qed.

Lemma for_in_fmap (g : B → A) (l : list B) (body : S → A → result S) s :
  for_in (g <$> l) s body = for_in l s (λ s x, body s (g x)).
Proof.
  revert s. induction l as [|x l IH]; intros s; simpl; [done|].
  destruct (body s (g x)); simpl; [apply IH | done].
Qed.

(** Elements on which the body does nothing may be left out. *)
Lemma for_in_filter (P : A → Prop) `{!∀ x, Decision (P x)} (l : list A)
    (body : S → A → result S) s :
  (∀ s x, ¬ P x → body s x = Ok s) →
  for_in (filter P l) s body = for_in l s body.
Proof.
  intros Hskip. revert s.
  induction l as [|x l IH]; intros s; simpl; [done|].
  rewrite filter_cons. case_decide as Hx; simpl.
  - destruct (body s x); simpl; [apply IH | done].
  - rewrite (Hskip s x Hx). simpl. apply IH.
Qed.

End Loops.

(** ** Grouping candidates by source table *)

Section Grouping.
Implicit Types (r : gmap string (list Candidate)).
Implicit Types (L : list (string * Candidate)).

Lemma append_to_total r k c t :
  append_to r k c !!! t = if decide (k = t) then r !!! t ++ [c] else r !!! t.
Proof.
  unfold append_to. case_decide as Hk.
  - subst. rewrite lookup_total_insert_eq. by rewrite lookup_total_alt.
  - by rewrite lookup_total_insert_ne.
Qed.

Lemma collect_total r L t :
  collect r L !!! t = r !!! t ++ (filter (λ p, p.1 = t) L).*2.
Proof.
  revert r. induction L as [|[k c] L IH]; intros r; simpl.
  - by rewrite app_nil_r.
  - rewrite IH, append_to_total, filter_cons. simpl.
    case_decide; simpl; [by rewrite <- app_assoc | done].
Qed.

Lemma elem_of_collect L t c : c ∈ collect ∅ L !!! t ↔ (t, c) ∈ L.
Proof.
  rewrite collect_total, lookup_total_empty. simpl.
  rewrite list_elem_of_fmap. split.
  - intros ([k c'] & -> & [Hk ?]%list_elem_of_filter). simpl in *. by subst.
  - intros H. exists (t, c). split; [done|].
    by apply list_elem_of_filter.
Qed.

Lemma collect_no_empty_list r L : no_empty_list r → no_empty_list (collect r L).
Proof.
  revert r. induction L as [|[k c] L IH]; intros r Hr; simpl; [done|].
  apply IH. intros k' l. unfold append_to.
  rewrite lookup_insert. case_decide; [|by apply Hr].
  intros [= <-]. by destruct (default [] (r !! k)).
Qed.

Lemma collect_keys r L k :
  is_Some (collect r L !! k) → is_Some (r !! k) ∨ k ∈ L.*1.
Proof.
  revert r. induction L as [|[k' c] L IH]; intros r; simpl; [by left|].
  intros [H|H]%IH.
  - unfold append_to in H. rewrite lookup_insert in H.
    case_decide; [subst; right; left | by left].
  - right. by right.
Qed.

End Grouping.

(** ** Dictionaries built by the analyzer *)

Lemma elem_of_dict_set {V} (d : list (string * V)) k v p :
  p ∈ dict_set d k v → p = (k, v) ∨ p ∈ d.
Proof.
  induction d as [|[k' v'] d IH]; simpl.
  - intros ->%list_elem_of_singleton. by left.
  - case_decide; subst.
    + intros [->|?]%elem_of_cons; [by left | right; by right].
    + intros [->|[?|?]%IH]%elem_of_cons;
        [right; left | by left | right; by right].
Qed.

Lemma dict_set_elem_of {V} (d : list (string * V)) k v : (k, v) ∈ dict_set d k v.
Proof.
  induction d as [|[k' v'] d IH]; simpl; [left|].
  case_decide; subst; [left | by right].
Qed.

Lemma dict_set_other {V} (d : list (string * V)) k v k' v' :
  k ≠ k' → (k', v') ∈ d → (k', v') ∈ dict_set d k v.
Proof.
  intros Hk. induction d as [|[k0 v0] d IH]; simpl; [by intros ?%elem_of_nil|].
  intros [[= <- <-]|Hd]%elem_of_cons.
  - case_decide; [congruence | left].
  - case_decide; right; [done | by apply IH].
Qed.

Section Matches.
Context (patterns : list (string * (string → option string))).
Context (column_name : string).

(** An entry of [matches] is a pattern that matches, with its group. *)
Lemma matches_of_sound p g :
  (p, g) ∈ matches_of patterns column_name →
  ∃ pattern, (p, pattern) ∈ patterns ∧ pattern column_name = Some g.
Proof.
  unfold matches_of.
  assert (∀ acc,
    (p, g) ∈ foldl (matches_step column_name) acc patterns →
    (p, g) ∈ acc
    ∨ ∃ pattern, (p, pattern) ∈ patterns ∧ pattern column_name = Some g)
    as Hgen.
  { induction patterns as [|[k f] ps IH]; intros acc; simpl; [by left|].
    intros [Hacc|(f' & ? & ?)]%IH.
    - destruct (f column_name) as [g'|] eqn:Hf; [|by left].
      apply elem_of_dict_set in Hacc as [[= -> ->]|?]; [|by left].
      right. exists f. split; [left | done].
    - right. exists f'. split; [by right | done]. }
  intros [[]%elem_of_nil|?]%Hgen. done.
Qed.

(** With distinct pattern names, every pattern that matches has its
    entry. *)
Lemma matches_of_complete p pattern g :
  NoDup patterns.*1 →
  (p, pattern) ∈ patterns → pattern column_name = Some g →
  (p, g) ∈ matches_of patterns column_name.
Proof.
  unfold matches_of. intros Hnodup Hin Hg.
  assert (∀ acc,
    NoDup patterns.*1 →
    ((p, g) ∈ acc ∧ p ∉ patterns.*1) ∨ (p, pattern) ∈ patterns →
    (p, g) ∈ foldl (matches_step column_name) acc patterns) as Hgen.
  { clear Hnodup Hin.
    induction patterns as [|[k f] ps IH]; intros acc Hnd; simpl.
    - intros [[? _]|[]%elem_of_nil]. done.
    - apply NoDup_cons in Hnd as [Hk Hnd]. simpl in *.
      intros [[Hacc Hp]|[[= <- <-]|Hps]%elem_of_cons].
      + apply IH; [done|]. left.
        apply not_elem_of_cons in Hp as [Hpk Hp]. split; [|done].
        destruct (f column_name); [|done]. by apply dict_set_other.
      + apply IH; [done|]. left. rewrite Hg. split; [|done].
        apply dict_set_elem_of.
      + apply IH; [done|]. by right. }
  apply Hgen; [done | by right].
Qed.

End Matches.

Lemma compiled_patterns_names :
  compiled_patterns.*1
  = ["id_pattern"; "fk_pattern"; "table_id_pattern"; "ref_pattern";
     "cod_pattern"; "num_pattern"].
Proof. reflexivity. Qed.

Lemma compiled_patterns_NoDup : NoDup compiled_patterns.*1.
Proof.
  rewrite compiled_patterns_names.
  apply (bool_decide_unpack (NoDup _)). by vm_compute.
Qed.

Section TableNames.
Context (keys : list string).

(** A token resolves to a table of the catalog that normalises to it. *)
Lemma table_names_sound token table_name :
  table_names_of keys !! token = Some table_name →
  table_name ∈ keys ∧ _normalize_table_name table_name = token.
Proof.
  unfold table_names_of.
  assert (∀ d,
    foldl table_names_step d keys !! token = Some table_name →
    d !! token = Some table_name
    ∨ (table_name ∈ keys ∧ _normalize_table_name table_name = token))
    as Hgen.
  { induction keys as [|k ks IH]; intros d; simpl; [by left|].
    intros [Hd|[? ?]]%IH.
    - unfold table_names_step in Hd. rewrite lookup_insert in Hd.
      case_decide; [|by left]. simplify_eq. right. split; [left | done].
    - right. split; [by right | done]. }
  intros [Hd|?]%Hgen; [|done]. by rewrite lookup_empty in Hd.
Qed.

(** The normalised name of every table of the catalog resolves. *)
Lemma table_names_defined table_name :
  table_name ∈ keys →
  is_Some (table_names_of keys !! _normalize_table_name table_name).
Proof.
  unfold table_names_of.
  set (token := _normalize_table_name table_name).
  assert (∀ d,
    is_Some (d !! token) ∨ table_name ∈ keys →
    is_Some (foldl table_names_step d keys !! token)) as Hgen.
  { induction keys as [|k ks IH]; intros d; simpl.
    - intros [?|[]%elem_of_nil]. done.
    - intros [Hd|[->|?]%elem_of_cons]; apply IH.
      + left. unfold table_names_step. rewrite lookup_insert. by case_decide.
      + left. unfold table_names_step. by rewrite lookup_insert_eq.
      + by right. }
  intros ?. apply Hgen. by right.
Qed.

(** Without a collision the token resolves to the table itself. *)
Lemma table_names_unique table_name :
  table_name ∈ keys →
  (∀ other, other ∈ keys →
     _normalize_table_name other = _normalize_table_name table_name →
     other = table_name) →
  table_names_of keys !! _normalize_table_name table_name
  = Some table_name.
Proof.
  intros Hin Huniq.
  destruct (table_names_defined table_name Hin) as [other Hother].
  rewrite Hother. f_equal.
  apply table_names_sound in Hother as [? ?]. by apply Huniq.
Qed.

End TableNames.

(** The comprehension overwrites: a key written once more keeps the table
    written last, and later tables with other normalised names leave it
    alone. *)
Lemma table_names_last before after table_name :
  Forall (λ other,
            _normalize_table_name other ≠ _normalize_table_name table_name)
    after →
  table_names_of (before ++ table_name :: after)
  !! _normalize_table_name table_name
  = Some table_name.
Proof.
  intros Hafter. unfold table_names_of. rewrite foldl_app. simpl.
  set (d := table_names_step (foldl table_names_step ∅ before) table_name).
  assert (d !! _normalize_table_name table_name = Some table_name) as Hd
    by apply lookup_insert_eq.
  clearbody d. revert d Hd.
  induction Hafter as [|other after Hother _ IH]; intros d Hd; simpl; [done|].
  apply IH. unfold table_names_step. by rewrite lookup_insert_ne.
Qed.

(** ** What the analysis computes *)

Section Inference.
Context (self : DatabaseAnalyzer).

(** The scorer never raises. *)
Lemma confidence_score source_table target_table column_name pattern_type :
  _calculate_relationship_confidence self source_table target_table
    column_name pattern_type
  = Ok (score self source_table target_table column_name pattern_type).
Proof.
  unfold _calculate_relationship_confidence, score, sampled, base_weight.
  destruct (execute_scalar _ _) as [count|e]; simpl; [|done].
  by destruct (0 <? count)%Z.
Qed.

(** The run completes, and its result is the appends of [emitted]
    grouped by source table. *)
Lemma find_trace :
  find_implicit_relationships self = Ok (collect ∅ (emitted self)).
Proof.
  unfold find_implicit_relationships, emitted, collect.
  apply (for_in_trace _ (emit_table self)). intros r1 [t table] _.
  apply (for_in_trace _ (emit_column self t)). intros r2 column _.
  unfold emit_column. case_bool_decide; [done|].
  apply (for_in_trace _ (emit_match self t (Str.lower (name column)))).
  intros r3 [p g] _.
  apply (for_in_trace _ (emit_variation self t (Str.lower (name column)) p)).
  intros r4 v _. unfold emit_variation, table_names.
  destruct (table_names_of _ !! v) as [target|]; [|done].
  case_decide; [done|]. by rewrite confidence_score.
Qed.

(** The candidates of a source table, spelled out. *)
Lemma elem_of_emitted t c :
  (t, c) ∈ emitted self ↔
  ∃ table column p g v target,
    (t, table) ∈ tables (metadata self)
    ∧ column ∈ columns table
    ∧ foreign_keys column = ∅
    ∧ (p, g) ∈ matches_of (relation_patterns self) (Str.lower (name column))
    ∧ v ∈ _get_all_table_variations g
    ∧ table_names self !! v = Some target
    ∧ target ≠ t
    ∧ c = candidate self t (Str.lower (name column)) target p.
Proof.
  unfold emitted. rewrite list_elem_of_bind. split.
  - intros ([t' table] & Hc & Ht). unfold emit_table in Hc. simpl in Hc.
    apply list_elem_of_bind in Hc as (column & Hc & Hcol).
    unfold emit_column in Hc. case_bool_decide as Hfk; [by apply elem_of_nil in Hc|].
    apply list_elem_of_bind in Hc as ([p g] & Hc & Hm).
    apply list_elem_of_bind in Hc as (v & Hc & Hv). simpl in *.
    unfold emit_variation in Hc.
    destruct (table_names self !! v) as [target|] eqn:Htn; [|by apply elem_of_nil in Hc].
    case_decide as Hself; [by apply elem_of_nil in Hc|].
    apply list_elem_of_singleton in Hc as [= -> ->].
    exists table, column, p, g, v, target.
    apply elem_of_elements in Hv.
    by repeat split.
  - intros (table & column & p & g & v & target
            & Ht & Hcol & Hfk & Hm & Hv & Htn & Hself & ->).
    exists (t, table). split; [|done].
    apply list_elem_of_bind. exists column. split; [|done].
    unfold emit_column. rewrite bool_decide_eq_false_2 by (by intros []).
    apply list_elem_of_bind. exists (p, g). split; [|done].
    apply list_elem_of_bind. exists v. split; [|by apply elem_of_elements].
    simpl. unfold emit_variation. rewrite Htn.
    rewrite decide_False by done. by left.
Qed.

(** Every append goes to a table of the catalog. *)
Lemma emitted_keys : (emitted self).*1 ⊆ (tables (metadata self)).*1.
Proof.
  intros t ([t' c] & -> & Hc)%list_elem_of_fmap. simpl.
  apply elem_of_emitted in Hc as (table & _ & _ & _ & _ & _ & Ht & _).
  apply list_elem_of_fmap. by exists (t', table).
Qed.

End Inference.

(** The report of a run, read table by table. *)
Lemma find_spec (self : DatabaseAnalyzer) :
  ∃ rels,
    find_implicit_relationships self = Ok rels
    ∧ rels = collect ∅ (emitted self)
    ∧ ∀ t c, c ∈ rels !!! t ↔ (t, c) ∈ emitted self.
Proof.
  exists (collect ∅ (emitted self)).
  split; [apply find_trace|]. split; [done|]. intros t c. apply elem_of_collect.
Qed.

(** ** Invariants of the inferred relationships *)

Lemma find_without_declared_fk (self : DatabaseAnalyzer) :
  find_implicit_relationships (without_declared_fk self)
  = find_implicit_relationships self.
Proof.
  unfold find_implicit_relationships. simpl.
  replace ((prod_map id drop_declared_fk <$> tables (metadata self)).*1)
    with (tables (metadata self)).*1.
  2:{ rewrite <- list_fmap_compose. apply list_fmap_ext. by intros i [??] _. }
  rewrite for_in_fmap. apply for_in_ext. intros r [t table] _. simpl.
  apply (for_in_filter (λ column, foreign_keys column = ∅)).
  intros r' column Hfk. by rewrite bool_decide_eq_true_2.
Qed.

(** C2: for every catalog the run completes and every candidate recorded
    for a source table comes from a column of that table that carries no
    declared foreign key; the columns that carry one take no part: the
    result is the one of the catalog without them, whatever their names. *)
Theorem declared_fk_column_never_source (self : DatabaseAnalyzer) :
  ∃ rels,
    find_implicit_relationships self = Ok rels
    ∧ (∀ t c, c ∈ rels !!! t →
         ∃ table column,
           (t, table) ∈ tables (metadata self)
           ∧ column ∈ columns table
           ∧ foreign_keys column = ∅
           ∧ source_column c = Str.lower (name column))
    ∧ find_implicit_relationships (without_declared_fk self) = Ok rels.
Proof.
  destruct (find_spec self) as (rels & Hfind & _ & Hrels).
  exists rels. split; [done|]. split.
  - intros t c (table & column & p & g & v & target & Ht & Hcol & Hfk & _
                & _ & _ & _ & ->)%Hrels%elem_of_emitted.
    by exists table, column.
  - by rewrite find_without_declared_fk.
Qed.

(** C3: for every catalog the run completes and no candidate recorded for
    a source table has that table as its target. *)
Theorem no_self_loop (self : DatabaseAnalyzer) :
  ∃ rels,
    find_implicit_relationships self = Ok rels
    ∧ ∀ t c, c ∈ rels !!! t → target_table c ≠ t.
Proof.
  destruct (find_spec self) as (rels & Hfind & _ & Hrels).
  exists rels. split; [done|].
  intros t c (table & column & p & g & v & target & _ & _ & _ & _ & _ & _
              & Hself & ->)%Hrels%elem_of_emitted.
  done.
Qed.

Lemma analyze_spec (self : DatabaseAnalyzer) :
  ∃ report,
    analyze_and_suggest_relationships self = Ok report
    ∧ find_implicit_relationships self = Ok (relationships report)
    ∧ recommendations report = []
    ∧ total_implicit_relationships (statistics report)
      = sum_list_with length (values (relationships report))
    ∧ tables_with_implicit_relations (statistics report)
      = size (relationships report)
    ∧ high_confidence_relations (statistics report)
      = sum_list
          (rels ← values (relationships report);
           rel ← rels;
           if PrimFloat.leb 0.8 (confidence rel) then [1] else []).
Proof.
  unfold analyze_and_suggest_relationships. rewrite find_trace. simpl.
  eexists. split; [done|]. by simpl.
Qed.

(** C10: for every catalog the report has an empty list of
    recommendations, and the description of every candidate is the source
    table, a dot, the lower-cased name of the source column, [" -> "],
    the target table and [".id"]. *)
Theorem report_has_no_recommendation_and_id_links (self : DatabaseAnalyzer) :
  ∃ report,
    analyze_and_suggest_relationships self = Ok report
    ∧ recommendations report = []
    ∧ ∀ t c, c ∈ relationships report !!! t →
        ∃ table column,
          (t, table) ∈ tables (metadata self)
          ∧ column ∈ columns table
          ∧ source_column c = Str.lower (name column)
          ∧ suggested_relationship c
            = t +:+ "." +:+ Str.lower (name column) +:+ " -> "
              +:+ target_table c +:+ ".id".
Proof.
  destruct (analyze_spec self) as (report & Hrun & Hfind & Hrec & _).
  exists report. split; [done|]. split; [done|].
  destruct (find_spec self) as (rels & Hfind' & _ & Hrels).
  rewrite Hfind in Hfind'. injection Hfind' as <-.
  intros t c (table & column & p & g & v & target & Ht & Hcol & _ & _
              & _ & _ & _ & ->)%Hrels%elem_of_emitted.
  by exists table, column.
Qed.

(** ** Statistics *)

Section Counting.
Context {V : Type}.
Implicit Types (m : gmap string V) (keys : list string).

Lemma values_delete m k x :
  m !! k = Some x → values m ≡ₚ x :: values (delete k m).
Proof.
  intros H. unfold values.
  by rewrite <- (map_to_list_delete m k x H).
Qed.

(** A sum over the values of a dictionary is a sum over any duplicate
    free list of keys that covers it. *)
Lemma sum_by_key (g : option V → nat) keys m :
  NoDup keys →
  (∀ k, is_Some (m !! k) → k ∈ keys) →
  g None = 0 →
  sum_list_with (g ∘ Some) (values m) = sum_list_with (λ k, g (m !! k)) keys.
Proof.
  intros Hnd Hcover Hg. revert m Hcover.
  induction Hnd as [|k ks Hk Hnd IH]; intros m Hcover.
  - assert (m = ∅) as ->.
    { apply map_empty. intros k. apply eq_None_not_Some.
      by intros []%Hcover%elem_of_nil. }
    unfold values. by rewrite map_to_list_empty.
  - assert (sum_list_with (λ k', g (delete k m !! k')) ks
            = sum_list_with (λ k', g (m !! k')) ks) as Hks.
    { clear -Hk. induction ks as [|k' ks IH]; simpl; [done|].
      apply not_elem_of_cons in Hk as [? ?].
      rewrite lookup_delete_ne by done. by rewrite IH. }
    assert (∀ k', is_Some (delete k m !! k') → k' ∈ ks) as Hcover'.
    { intros k' [Hne H]%lookup_delete_is_Some.
      apply Hcover in H. apply elem_of_cons in H as [?|?]; [congruence|done]. }
    simpl. destruct (m !! k) as [x|] eqn:Hm.
    + rewrite (values_delete m k x Hm). simpl.
      by rewrite (IH _ Hcover'), Hks.
    + rewrite Hg. simpl. rewrite <- Hks, <- (IH _ Hcover').
      by rewrite delete_id.
Qed.

Lemma sum_list_with_ones {X} (P : X → Prop) `{!∀ x, Decision (P x)}
    (l : list X) :
  sum_list_with (λ x, if decide (P x) then 1 else 0) l = length (filter P l).
Proof.
  induction l as [|x l IH]; simpl; [done|].
  rewrite filter_cons. case_decide; simpl; by rewrite IH.
Qed.

End Counting.

Lemma sum_list_with_ext {X} (f g : X → nat) (l : list X) :
  (∀ x, f x = g x) → sum_list_with f l = sum_list_with g l.
Proof. intros H. induction l as [|x l IH]; simpl; [done|]. by rewrite H, IH. Qed.

Lemma sum_total_by_key {V} (f : list V → nat) (m : gmap string (list V)) keys :
  NoDup keys →
  (∀ k, is_Some (m !! k) → k ∈ keys) →
  f [] = 0 →
  sum_list_with f (values m) = sum_list_with (λ k, f (m !!! k)) keys.
Proof.
  intros Hnd Hcover Hf.
  trans (sum_list_with (λ k, from_option f 0 (m !! k)) keys).
  - by apply (sum_by_key (from_option f 0)).
  - apply sum_list_with_ext. intros k.
    rewrite lookup_total_alt. by destruct (m !! k).
Qed.

(** The generator of lines 161-164 counts the high candidates of each
    list. *)
Lemma high_count (l : list (list Candidate)) :
  sum_list
    (rels ← l; rel ← rels;
     if PrimFloat.leb 0.8 (confidence rel) then [1] else [])
  = sum_list_with (λ rels, length (filter is_high rels)) l.
Proof.
  induction l as [|rels l IH]; [done|].
  rewrite bind_cons, sum_list_with_app, IH. simpl. f_equal. clear IH.
  induction rels as [|rel rels IH]; [done|].
  rewrite bind_cons, sum_list_with_app, IH, filter_cons.
  case_decide as Hrel; unfold is_high in Hrel.
  - by rewrite Hrel.
  - apply not_true_is_false in Hrel. by rewrite Hrel.
Qed.

(** C9: for every catalog (its table names are the keys of a dictionary,
    hence distinct) the run completes and, table by table of the catalog,
    [total_implicit_relationships] is the sum of the numbers of
    candidates, [high_confidence_relations] is the sum of the numbers of
    candidates of confidence at least 0.8 and is at most the total, and
    [tables_with_implicit_relations] is the number of tables with at least
    one candidate. *)
Theorem statistics_count_candidates (self : DatabaseAnalyzer) :
  NoDup (tables (metadata self)).*1 →
  ∃ report,
    analyze_and_suggest_relationships self = Ok report
    ∧ let rels := relationships report in
      let stats := statistics report in
      let sources := (tables (metadata self)).*1 in
      total_implicit_relationships stats
      = sum_list_with (λ t, length (rels !!! t)) sources
      ∧ high_confidence_relations stats
        = sum_list_with (λ t, length (filter is_high (rels !!! t))) sources
      ∧ high_confidence_relations stats ≤ total_implicit_relationships stats
      ∧ tables_with_implicit_relations stats
        = length (filter (λ t, rels !!! t ≠ []) sources).
Proof.
  intros Hnd.
  destruct (analyze_spec self)
    as (report & Hrun & Hfind & _ & Htotal & Hsize & Hhigh).
  exists report. split; [done|]. simpl.
  rewrite find_trace in Hfind. injection Hfind as Hrels.
  set (rels := relationships report) in *.
  assert (∀ k, is_Some (rels !! k) → k ∈ (tables (metadata self)).*1)
    as Hcover.
  { intros k Hk. rewrite <- Hrels in Hk.
    apply collect_keys in Hk as [Hk|Hk]; [|by apply emitted_keys].
    rewrite lookup_empty in Hk. by destruct Hk. }
  assert (no_empty_list rels) as Hne.
  { rewrite <- Hrels. apply collect_no_empty_list.
    intros k l. by rewrite lookup_empty. }
  assert (total_implicit_relationships (statistics report)
          = sum_list_with (λ t, length (rels !!! t))
              (tables (metadata self)).*1) as Htotal'.
  { rewrite Htotal. by apply sum_total_by_key. }
  assert (high_confidence_relations (statistics report)
          = sum_list_with (λ t, length (filter is_high (rels !!! t)))
              (tables (metadata self)).*1) as Hhigh'.
  { rewrite Hhigh, high_count.
    by apply (sum_total_by_key (λ l, length (filter is_high l))). }
  split; [done|]. split; [done|]. split.
  - rewrite Htotal', Hhigh'. clear.
    induction (tables (metadata self)).*1 as [|t ts IH]; simpl; [done|].
    pose proof (length_filter is_high (rels !!! t)). lia.
  - rewrite Hsize, <- sum_list_with_ones.
    trans (sum_list_with (λ _, 1) (values rels)).
    { rewrite <- length_map_to_list. unfold values.
      rewrite <- (length_fmap snd).
      induction ((map_to_list rels).*2) as [|x l IH]; simpl; [done|].
      by rewrite IH. }
    etrans;
      [exact (sum_by_key (λ o, if o is Some _ then 1 else 0) _ rels
                Hnd Hcover eq_refl)|].
    apply sum_list_with_ext. intros k. rewrite lookup_total_alt.
    destruct (rels !! k) as [l|] eqn:Hk; simpl.
    + apply Hne in Hk. by destruct (decide _).
    + done.
Qed.

(** ** Confidence of a candidate *)

Lemma base_weight_cases pattern_type :
  base_weight pattern_type ∈ [0.8; 0.9; 0.85; 0.7; 0.6; 0.5; 0.3]%float.
Proof.
  unfold base_weight, pattern_confidence. simpl.
  repeat case_decide; set_solver.
Qed.

(** The score of [_calculate_relationship_confidence], for any pattern
    name: [min(1.0, base + bonus)], within [0, 1], and the base itself when
    the overlap query raises. *)
Lemma score_formula (self : DatabaseAnalyzer) s t c p :
  score self s t c p = py_min 1 (base_weight p + bonus self s t c)%float
  ∧ PrimFloat.leb 0 (score self s t c p) = true
  ∧ PrimFloat.leb (score self s t c p) 1 = true
  ∧ PrimFloat.leb (base_weight p) (score self s t c p) = true
  ∧ ((∃ e, sampled self s t c = Raise e) → score self s t c p = base_weight p).
Proof.
  pose proof (base_weight_cases p) as Hbase.
  unfold score, bonus. set (base := base_weight p) in *. clearbody base.
  destruct (sampled self s t c) as [count|e];
    [destruct (0 <? count)%Z|];
    repeat (apply elem_of_cons in Hbase as [->|Hbase];
            [vm_compute; repeat split; try done;
             intros [? [=]] |]);
    by apply elem_of_nil in Hbase.
Qed.

(** [_calculate_relationship_confidence] returns [min(1.0, base + bonus)]
    for every pattern name, the ones without a weight of their own
    included. *)
Lemma calculate_confidence_formula (self : DatabaseAnalyzer) s t c p :
  _calculate_relationship_confidence self s t c p
  = Ok (py_min 1 (base_weight p + bonus self s t c)%float).
Proof.
  rewrite confidence_score. f_equal. by destruct (score_formula self s t c p).
Qed.

(** The weight of each compiled pattern is the one listed with its name. *)
Lemma compiled_weight p pattern :
  (p, pattern) ∈ compiled_patterns →
  (p, base_weight p) ∈ pattern_confidence.
Proof.
  unfold compiled_patterns. intros Hp.
  repeat (apply elem_of_cons in Hp as [[= -> _]|Hp];
          [vm_compute; set_solver|]).
  by apply elem_of_nil in Hp.
Qed.

(** ** Construction *)

Section Construction.
Context (create_engine : string → result Engine).

(** What a successful construction has read and stored. *)
Lemma init_inv url self :
  __init__ create_engine url = Ok self →
  create_engine url = Ok (engine self)
  ∧ reflect (engine self) = Ok (tables (metadata self))
  ∧ relation_patterns self = compiled_patterns.
Proof.
  unfold __init__. destruct (create_engine url) as [db|e]; simpl; [|done].
  unfold _get_all_metadata.
  destruct (reflect db) as [cat|e] eqn:Hcat; simpl; [|done].
  destruct (inspect db) as [insp|e]; simpl; [|done].
  intros [= <-]. by simpl.
Qed.

(** A failure of reflection leaves the constructor as the exception of
    the handler itself: line 36 reads [self.logger] before line 19
    assigns it. *)
Lemma init_reflect_failure url db e :
  create_engine url = Ok db →
  reflect db = Raise e →
  __init__ create_engine url
  = Raise {| exn_class := "AttributeError";
             exn_message :=
               "'DatabaseAnalyzer' object has no attribute 'logger'" |}.
Proof.
  intros Hdb He. unfold __init__. rewrite Hdb. simpl.
  unfold _get_all_metadata. by rewrite He.
Qed.

End Construction.

(** C6: for every candidate of a report, the confidence is
    [min(1.0, base + bonus)], with the base weight listed for the matched
    pattern and a bonus of 0.2 when the overlap query counts at least one
    value and of 0 otherwise; it lies between 0 and 1. *)
Theorem confidence_is_clamped_base_plus_bonus
    (create_engine : string → result Engine) (url : string)
    (self : DatabaseAnalyzer) :
  __init__ create_engine url = Ok self →
  ∃ rels,
    find_implicit_relationships self = Ok rels
    ∧ ∀ t c, c ∈ rels !!! t →
        ∃ base,
          (pattern_matched c, base)
            ∈ [ ("id_pattern", 0.8); ("fk_pattern", 0.9);
                ("table_id_pattern", 0.85); ("ref_pattern", 0.7);
                ("cod_pattern", 0.6); ("num_pattern", 0.5) ]%float
          ∧ confidence c
            = py_min 1
                (base + bonus self t (target_table c) (source_column c))%float
          ∧ PrimFloat.leb 0 (confidence c) = true
          ∧ PrimFloat.leb (confidence c) 1 = true.
Proof.
  intros (_ & _ & Hpatterns)%init_inv.
  destruct (find_spec self) as (rels & Hfind & _ & Hrels).
  exists rels. split; [done|].
  intros t c (table & column & p & g & v & target & _ & _ & _ & Hm & _ & _
              & _ & ->)%Hrels%elem_of_emitted.
  rewrite Hpatterns in Hm.
  apply matches_of_sound in Hm as (pattern & Hp & _).
  exists (base_weight p). simpl.
  split; [by apply (compiled_weight p pattern)|].
  destruct (score_formula self t target (Str.lower (name column)) p)
    as (? & ? & ? & _).
  done.
Qed.

Lemma resolves_emitted self t column p target :
  resolves self t column p target →
  (t, candidate self t (Str.lower (name column)) target p) ∈ emitted self.
Proof.
  intros (table & g & v & ? & ? & ? & ? & ? & ? & ?).
  apply elem_of_emitted. by exists table, column, p, g, v, target.
Qed.

(** C7: when the overlap query of a candidate raises, the run still
    completes and the report holds the candidate with the base weight of
    its pattern as confidence; and every candidate of the report whose
    overlap query raises has the base weight of its pattern. *)
Theorem sampler_failure_leaves_base_confidence
    (create_engine : string → result Engine) (url : string)
    (self : DatabaseAnalyzer) (t : string) (column : Column)
    (p target : string) (e : exn) :
  __init__ create_engine url = Ok self →
  resolves self t column p target →
  sampled self t target (Str.lower (name column)) = Raise e →
  ∃ report,
    analyze_and_suggest_relationships self = Ok report
    ∧ (∃ base,
         (p, base) ∈ pattern_confidence
         ∧ {| source_column := Str.lower (name column);
              target_table := target;
              pattern_matched := p;
              confidence := base;
              suggested_relationship :=
                t +:+ "." +:+ Str.lower (name column) +:+ " -> "
                +:+ target +:+ ".id" |}
           ∈ relationships report !!! t)
    ∧ ∀ t' c,
        c ∈ relationships report !!! t' →
        (∃ e', sampled self t' (target_table c) (source_column c) = Raise e') →
        (pattern_matched c, confidence c) ∈ pattern_confidence.
Proof.
  intros (_ & _ & Hpatterns)%init_inv Hres Hraise.
  destruct (analyze_spec self) as (report & Hrun & Hfind & _).
  exists report. split; [done|].
  destruct (find_spec self) as (rels & Hfind' & _ & Hrels).
  rewrite Hfind in Hfind'. injection Hfind' as <-.
  split.
  - exists (base_weight p). split.
    + destruct Hres as (_ & g & _ & _ & _ & _ & Hm & _).
      rewrite Hpatterns in Hm.
      apply matches_of_sound in Hm as (pattern & Hp & _).
      by apply (compiled_weight p pattern).
    + apply Hrels. apply resolves_emitted in Hres.
      unfold candidate in Hres.
      destruct (score_formula self t target (Str.lower (name column)) p)
        as (_ & _ & _ & _ & Hbase).
      rewrite Hbase in Hres by eauto. done.
  - intros t' c (table & column' & p' & g & v & target' & _ & _ & _ & Hm & _
                 & _ & _ & ->)%Hrels%elem_of_emitted Hraise'.
    simpl in *. rewrite Hpatterns in Hm.
    apply matches_of_sound in Hm as (pattern & Hp & _).
    destruct (score_formula self t' target' (Str.lower (name column')) p')
      as (_ & _ & _ & _ & Hbase).
    rewrite Hbase by done. by apply (compiled_weight p' pattern).
Qed.

(** C8: when the reflection of the catalog raises, the constructor raises,
    and so does the program: no report is returned. *)
Theorem catalog_failure_aborts
    (create_engine : string → result Engine) (url : string) (db : Engine)
    (e : exn) :
  create_engine url = Ok db →
  reflect db = Raise e →
  ∃ e',
    __init__ create_engine url = Raise e'
    ∧ main create_engine url = Raise e'
    ∧ ∀ report, main create_engine url ≠ Ok report.
Proof.
  intros Hdb He. eexists.
  pose proof (init_reflect_failure create_engine url db e Hdb He) as Hinit.
  split; [exact Hinit|]. unfold main. rewrite Hinit. by simpl.
Qed.

(** C1, as stated, fails: the token [cliente] resolves to the last table of
    the catalog that normalises to it. In the catalog of the generator
    followed by a table [tb_cliente], which holds [dim_cliente] and the
    column [id_cliente] of [fato_vendas] without declared foreign key, no
    candidate of [fato_vendas] has the target [dim_cliente], even on a
    database that confirms every overlap: [id_cliente] is linked to
    [tb_cliente]. *)
Lemma scenario_fails_with_later_namesake :
  ¬ ∀ (create_engine : string → result Engine) (url : string)
      (self : DatabaseAnalyzer) (table : Table) (column : Column),
      __init__ create_engine url = Ok self →
      ("fato_vendas", table) ∈ tables (metadata self) →
      column ∈ columns table →
      name column = "id_cliente" →
      foreign_keys column = ∅ →
      "dim_cliente" ∈ (tables (metadata self)).*1 →
      ∃ rels,
        find_implicit_relationships self = Ok rels
        ∧ ∃ c,
            c ∈ rels !!! "fato_vendas"
            ∧ pattern_matched c = "id_pattern"
            ∧ target_table c = "dim_cliente"
            ∧ PrimFloat.leb 0.8 (confidence c) = true.
Proof.
  intros H.
  destruct (H (Sample.connect
                 (Sample.engine_on Orders.colliding (Sample.counting 3)))
              Sample.location
              (Sample.analyzer_on Orders.colliding (Sample.counting 3))
              Sample.fato_vendas (Sample.col "id_cliente"))
    as (rels & Hfind & c & Hc & _ & Htarget & _).
  - reflexivity.
  - do 4 right. left.
  - do 4 right. left.
  - reflexivity.
  - reflexivity.
  - left.
  - vm_compute in Hfind. injection Hfind as <-.
    vm_compute in Hc.
    repeat (apply elem_of_cons in Hc as [->|Hc]; [discriminate Htarget|]).
    by apply elem_of_nil in Hc.
Qed.

(** C1, amended: in a catalog with a table [dim_cliente] after which no
    table has the normalised name [cliente], and a table [fato_vendas]
    with a column [id_cliente] without declared foreign key, the run
    records for [fato_vendas] a candidate of pattern [id_pattern] and
    target [dim_cliente]; its confidence is at least 0.8: 1.0 when the
    overlap query counts at least one value, and 0.8 when it counts none
    or raises. Tables that normalise to [cliente] and come before
    [dim_cliente] do not matter. *)
Theorem scenario_fato_vendas_id_cliente
    (create_engine : string → result Engine) (url : string)
    (self : DatabaseAnalyzer) (table : Table) (column : Column)
    (before after : list string) :
  __init__ create_engine url = Ok self →
  ("fato_vendas", table) ∈ tables (metadata self) →
  column ∈ columns table →
  name column = "id_cliente" →
  foreign_keys column = ∅ →
  (tables (metadata self)).*1 = before ++ "dim_cliente" :: after →
  (∀ other, other ∈ after → _normalize_table_name other ≠ "cliente") →
  ∃ rels,
    find_implicit_relationships self = Ok rels
    ∧ ∃ c,
        c ∈ rels !!! "fato_vendas"
        ∧ source_column c = "id_cliente"
        ∧ pattern_matched c = "id_pattern"
        ∧ target_table c = "dim_cliente"
        ∧ PrimFloat.leb 0.8 (confidence c) = true
        ∧ match sampled self "fato_vendas" "dim_cliente" "id_cliente" with
          | Ok count =>
              if (0 <? count)%Z then confidence c = 1%float
              else confidence c = 0.8%float
          | Raise _ => confidence c = 0.8%float
          end.
Proof.
  intros (_ & _ & Hpatterns)%init_inv Ht Hcol Hname Hfk Hkeys Hafter.
  destruct (find_spec self) as (rels & Hfind & _ & Hrels).
  exists rels. split; [done|].
  exists (candidate self "fato_vendas" "id_cliente" "dim_cliente" "id_pattern").
  split.
  - apply Hrels. replace "id_cliente" with (Str.lower (name column))
      by (by rewrite Hname).
    apply resolves_emitted. exists table, "cliente", "cliente".
    do 3 (split; [done|]). rewrite Hpatterns, Hname.
    split; [vm_compute; left|].
    split; [apply elem_of_elements; by_computation|].
    split; [|done].
    unfold table_names. rewrite Hkeys.
    apply (table_names_last before after "dim_cliente").
    by apply Forall_forall.
  - simpl. repeat split; try done.
    + by destruct (score_formula self "fato_vendas" "dim_cliente"
                     "id_cliente" "id_pattern") as (_ & _ & _ & ? & _).
    + unfold score.
      destruct (sampled self "fato_vendas" "dim_cliente" "id_cliente")
        as [count|?]; [destruct (0 <? count)%Z|]; by vm_compute.
Qed.

(** ** The properties on the sample database *)

Section OnSample.
Import Sample.

Lemma sample_init answer :
  __init__ (connect (engine_with answer)) location = Ok (analyzer_of answer).
Proof. reflexivity. Qed.

Lemma sample_fato_vendas : ("fato_vendas", fato_vendas) ∈ catalog.
Proof. do 4 right. left. Qed.

Lemma sample_id_cliente : col "id_cliente" ∈ columns fato_vendas.
Proof. do 4 right. left. Qed.

Lemma sample_resolves answer :
  resolves (analyzer_of answer) "fato_vendas" (col "id_cliente")
    "id_pattern" "dim_cliente".
Proof.
  exists fato_vendas, "cliente", "cliente".
  split; [apply sample_fato_vendas|].
  split; [apply sample_id_cliente|].
  split; [done|].
  split; [vm_compute; left|].
  split; [apply elem_of_elements; by_computation|].
  split; [by vm_compute | done].
Qed.

(** What the analysis reports on the database of the generator. *)
Example sample_report :
  candidates_view
    (analyze_and_suggest_relationships (analyzer_of rejecting)) "fato_vendas"
  = Some [ ("fato_vendas.id_tempo -> dim_tempo.id", "id_pattern", 0.8);
           ("fato_vendas.id_produto -> dim_produto.id", "id_pattern", 0.8);
           ("fato_vendas.id_loja -> dim_loja.id", "id_pattern", 0.8);
           ("fato_vendas.id_cliente -> dim_cliente.id", "id_pattern", 0.8)
         ]%float.
Proof. vm_compute. reflexivity. Qed.

Example sample_statistics :
  statistics_view (analyze_and_suggest_relationships (analyzer_of rejecting))
  = Some {| total_implicit_relationships := 4;
            tables_with_implicit_relations := 1;
            high_confidence_relations := 4 |}.
Proof. vm_compute. reflexivity. Qed.

(** A failing reflection: the program ends with the exception of the
    handler. *)
Example sample_unreachable :
  main (connect unreachable) location
  = Raise {| exn_class := "AttributeError";
             exn_message :=
               "'DatabaseAnalyzer' object has no attribute 'logger'" |}.
Proof. reflexivity. Qed.

Lemma normalize_idempotent_without_suffix_witness :
  _normalize_table_name (_normalize_table_name "dim_cliente")
  = _normalize_table_name "dim_cliente".
Proof.
  apply (normalize_idempotent_without_suffix "dim_cliente").
  vm_compute. reflexivity.
Defined.

Lemma scenario_fato_vendas_id_cliente_witness :
  ∃ rels,
    find_implicit_relationships (analyzer_on Orders.preceded (counting 3))
    = Ok rels
    ∧ ∃ c,
        c ∈ rels !!! "fato_vendas"
        ∧ source_column c = "id_cliente"
        ∧ pattern_matched c = "id_pattern"
        ∧ target_table c = "dim_cliente"
        ∧ PrimFloat.leb 0.8 (confidence c) = true
        ∧ confidence c = 1%float.
Proof.
  apply (scenario_fato_vendas_id_cliente
           (connect (engine_on Orders.preceded (counting 3))) location
           (analyzer_on Orders.preceded (counting 3)) fato_vendas
           (col "id_cliente") ["tb_cliente"]
           ["dim_loja"; "dim_produto"; "dim_tempo"; "fato_vendas"]).
  - reflexivity.
  - right. apply sample_fato_vendas.
  - apply sample_id_cliente.
  - reflexivity.
  - reflexivity.
  - reflexivity.
  - intros other Hother Hnorm.
    repeat (apply elem_of_cons in Hother as [->|Hother];
            [vm_compute in Hnorm; discriminate Hnorm|]).
    by apply elem_of_nil in Hother.
Defined.

Lemma confidence_is_clamped_base_plus_bonus_witness :
  ∃ rels,
    find_implicit_relationships (analyzer_of (counting 3)) = Ok rels
    ∧ ∀ t c, c ∈ rels !!! t →
        ∃ base,
          (pattern_matched c, base)
            ∈ [ ("id_pattern", 0.8); ("fk_pattern", 0.9);
                ("table_id_pattern", 0.85); ("ref_pattern", 0.7);
                ("cod_pattern", 0.6); ("num_pattern", 0.5) ]%float
          ∧ confidence c
            = py_min 1
                (base + bonus (analyzer_of (counting 3)) t (target_table c)
                          (source_column c))%float
          ∧ PrimFloat.leb 0 (confidence c) = true
          ∧ PrimFloat.leb (confidence c) 1 = true.
Proof.
  apply (confidence_is_clamped_base_plus_bonus
           (connect (engine_with (counting 3))) location).
  reflexivity.
Defined.

Lemma sampler_failure_leaves_base_confidence_witness :
  ∃ report,
    analyze_and_suggest_relationships (analyzer_of rejecting) = Ok report
    ∧ (∃ base,
         ("id_pattern", base) ∈ pattern_confidence
         ∧ {| source_column := "id_cliente";
              target_table := "dim_cliente";
              pattern_matched := "id_pattern";
              confidence := base;
              suggested_relationship :=
                "fato_vendas" +:+ "." +:+ "id_cliente" +:+ " -> "
                +:+ "dim_cliente" +:+ ".id" |}
           ∈ relationships report !!! "fato_vendas")
    ∧ ∀ t' c,
        c ∈ relationships report !!! t' →
        (∃ e', sampled (analyzer_of rejecting) t' (target_table c)
                 (source_column c) = Raise e') →
        (pattern_matched c, confidence c) ∈ pattern_confidence.
Proof.
  apply (sampler_failure_leaves_base_confidence
           (connect (engine_with rejecting)) location (analyzer_of rejecting)
           "fato_vendas" (col "id_cliente") "id_pattern" "dim_cliente"
           no_such_column).
  - reflexivity.
  - apply sample_resolves.
  - reflexivity.
Defined.

Lemma catalog_failure_aborts_witness :
  ∃ e',
    __init__ (connect unreachable) location = Raise e'
    ∧ main (connect unreachable) location = Raise e'
    ∧ ∀ report, main (connect unreachable) location ≠ Ok report.
Proof.
  apply (catalog_failure_aborts (connect unreachable) location unreachable
           {| exn_class := "OperationalError";
              exn_message := "could not connect to server" |});
    reflexivity.
Defined.

Lemma statistics_count_candidates_witness :
  ∃ report,
    analyze_and_suggest_relationships (analyzer_of rejecting) = Ok report
    ∧ let rels := relationships report in
      let stats := statistics report in
      let sources := catalog.*1 in
      total_implicit_relationships stats
      = sum_list_with (λ t, length (rels !!! t)) sources
      ∧ high_confidence_relations stats
        = sum_list_with (λ t, length (filter is_high (rels !!! t))) sources
      ∧ high_confidence_relations stats
        ≤ total_implicit_relationships stats
      ∧ tables_with_implicit_relations stats
        = length (filter (λ t, rels !!! t ≠ []) sources).
Proof.
  apply (statistics_count_candidates (analyzer_of rejecting)).
  by_computation.
Defined.

End OnSample.

(** ** The properties on a catalog with declared foreign keys *)

Section OnOrders.
Import Orders.

(** A column [fk_produto] next to a table [dim_produto] gives a candidate
    of pattern [fk_pattern] and base confidence 0.9; a column
    [numero_nota] without a table [nota] gives nothing; the column with a
    declared foreign key gives nothing although [cliente_id] matches
    [table_id_pattern]. *)
Example orders_report :
  candidates_view
    (analyze_and_suggest_relationships (order_analyzer Sample.rejecting))
    "pedidos"
  = Some [ ("pedidos.id_cliente -> cliente.id", "id_pattern", 0.8);
           ("pedidos.fk_produto -> dim_produto.id", "fk_pattern", 0.9);
           ("pedidos.produto_codigo -> dim_produto.id", "table_id_pattern",
            0.85) ]%float.
Proof. vm_compute. reflexivity. Qed.

(** With an overlap confirmed, every sum above 1.0 is clamped. *)
Example orders_report_confirmed :
  candidates_view
    (analyze_and_suggest_relationships (order_analyzer (Sample.counting 7)))
    "pedidos"
  = Some [ ("pedidos.id_cliente -> cliente.id", "id_pattern", 1);
           ("pedidos.fk_produto -> dim_produto.id", "fk_pattern", 1);
           ("pedidos.produto_codigo -> dim_produto.id", "table_id_pattern",
            1) ]%float.
Proof. vm_compute. reflexivity. Qed.

Example orders_statistics :
  statistics_view
    (analyze_and_suggest_relationships (order_analyzer Sample.rejecting))
  = Some {| total_implicit_relationships := 3;
            tables_with_implicit_relations := 1;
            high_confidence_relations := 3 |}.
Proof. vm_compute. reflexivity. Qed.

(** When two tables normalise to the same token, the later one of the
    catalog is the target: with [tb_cliente] after [dim_cliente], the
    column [id_cliente] of [fato_vendas] is linked to [tb_cliente]. *)
Example later_table_wins :
  candidates_view
    (analyze_and_suggest_relationships
       (Sample.analyzer_on colliding Sample.rejecting))
    "fato_vendas"
  = Some [ ("fato_vendas.id_tempo -> dim_tempo.id", "id_pattern", 0.8);
           ("fato_vendas.id_produto -> dim_produto.id", "id_pattern", 0.8);
           ("fato_vendas.id_loja -> dim_loja.id", "id_pattern", 0.8);
           ("fato_vendas.id_cliente -> tb_cliente.id", "id_pattern", 0.8)
         ]%float.
Proof. vm_compute. reflexivity. Qed.

End OnOrders.

(** * Further properties of the analyzer *)

Set Warnings "-clear-no-such-hyp".

(** ** Normalised names *)

Section NormalForm.
Import Str Re.

Lemma lower_app a b : lower (a +:+ b) = lower a +:+ lower b.
Proof.
  induction a as [|c a IH]; [done|].
  rewrite app_cons. simpl. by rewrite IH.
Qed.

Lemma length_lower s : String.length (lower s) = String.length s.
Proof. induction s as [|c s IH]; simpl; [done|]. by rewrite IH. Qed.

Lemma length_sub_prefix ps s :
  String.length (sub_prefix ps s) ≤ String.length s.
Proof.
  unfold sub_prefix.
  destruct (alt lit ps Some s) as [r|] eqn:H; simpl; [|done].
  apply alt_lit_Some in H as (q & _ & ->); [|congruence].
  rewrite length_app. lia.
Qed.

Lemma length_sub_suffix qs s :
  String.length (sub_suffix qs s) ≤ String.length s.
Proof.
  induction s as [|c s IH]; simpl.
  - destruct (suffix_here qs "") as [r|] eqn:H; [|done].
    apply alt_lit_Some in H as (q & _ & Hq); [|apply eos_id].
    apply (f_equal String.length) in Hq. rewrite length_app in Hq.
    simpl in Hq. lia.
  - destruct (suffix_here qs (String c s)) as [r|] eqn:H; simpl; [|lia].
    apply alt_lit_Some in H as (q & _ & Hq); [|apply eos_id].
    apply (f_equal String.length) in Hq. rewrite length_app in Hq.
    simpl in Hq. lia.
Qed.

Lemma str_app_assoc a b c : (a +:+ b) +:+ c = a +:+ (b +:+ c).
Proof.
  induction a as [|x a IH]; [done|]. rewrite !app_cons. by rewrite IH.
Qed.

Lemma app_snoc_inj a b c d :
  a +:+ String c "" = b +:+ String d "" → a = b ∧ c = d.
Proof.
  revert b. induction a as [|x a IH]; intros [|y b] H.
  - by injection H as ->.
  - rewrite app_nil, app_cons in H. injection H as -> H.
    destruct b; by rewrite ?app_nil, ?app_cons in H.
  - rewrite app_nil, app_cons in H. injection H as -> H.
    destruct a; by rewrite ?app_nil, ?app_cons in H.
  - rewrite !app_cons in H. injection H as -> H.
    apply IH in H as [-> ->]. done.
Qed.

(** A structural prefix at the head of a text is what [sub_prefix] takes
    off. *)
Lemma sub_prefix_strips p r :
  p ∈ ["dim_"; "tb_"; "tbl_"; "tab_"; "fact_"; "fato_"] →
  sub_prefix ["dim_"; "tb_"; "tbl_"; "tab_"; "fact_"; "fato_"] (p +:+ r) = r.
Proof.
  intros Hp.
  repeat (apply elem_of_cons in Hp as [->|Hp]; [by vm_compute|]).
  by apply elem_of_nil in Hp.
Qed.

End NormalForm.

(** X1: the normalised form of a table name holds no underscore and no
    character that [lower] would change, and is not longer than the
    lower-cased name, of which it is what the two substitutions and the
    removal of underscores leave. *)
Theorem normalized_name_shape (x : string) :
  Str.all not_underscore (_normalize_table_name x) = true
  ∧ Str.lower (_normalize_table_name x) = _normalize_table_name x
  ∧ String.length (_normalize_table_name x) ≤ String.length (Str.lower x).
Proof.
  split; [apply normalize_no_underscore|].
  split; [apply lower_id, normalize_lower|].
  unfold _normalize_table_name.
  etrans; [apply length_remove|].
  etrans; [apply length_sub_suffix|].
  apply length_sub_prefix.
Qed.

(** X2: two names that differ only in their structural prefix, written in
    any letter case ([dim_], [tb_], [tbl_], [tab_], [fact_], [fato_]),
    have the same normalised form: exactly that prefix is removed, once. *)
Theorem structural_prefixes_are_equivalent (p q x : string) :
  Str.lower p ∈ ["dim_"; "tb_"; "tbl_"; "tab_"; "fact_"; "fato_"] →
  Str.lower q ∈ ["dim_"; "tb_"; "tbl_"; "tab_"; "fact_"; "fato_"] →
  _normalize_table_name (p +:+ x) = _normalize_table_name (q +:+ x)
  ∧ _normalize_table_name (p +:+ x)
    = Str.remove Str.is_underscore
        (Re.sub_suffix ["s"; "es"; "is"] (Str.lower x)).
Proof.
  intros Hp Hq. unfold _normalize_table_name.
  rewrite !lower_app.
  by rewrite (sub_prefix_strips _ _ Hp), (sub_prefix_strips _ _ Hq).
Qed.

Lemma structural_prefixes_are_equivalent_witness :
  _normalize_table_name ("DIM_" +:+ "cliente")
  = _normalize_table_name ("tb_" +:+ "cliente")
  ∧ _normalize_table_name ("DIM_" +:+ "cliente")
    = Str.remove Str.is_underscore
        (Re.sub_suffix ["s"; "es"; "is"] (Str.lower "cliente")).
Proof.
  apply (structural_prefixes_are_equivalent "DIM_" "tb_" "cliente");
    by_computation.
Defined.

(** ** Singular and plural *)

Section Plural.
Import Str Re.

(** A literal without [s] that does not match a text does not match the
    text followed by [s] either. *)
Lemma lit_app_s p z :
  all (λ c, negb (bool_decide (c = "s"%char))) p = true →
  lit p (z +:+ "s") = (λ r, r +:+ "s") <$> lit p z.
Proof.
  revert z. induction p as [|a p IH]; intros z Hp; [done|].
  simpl in Hp. apply andb_true_iff in Hp as [Ha Hp].
  apply negb_true_iff, bool_decide_eq_false in Ha.
  destruct z as [|c z].
  - rewrite app_nil. simpl. by rewrite decide_False.
  - rewrite app_cons. simpl. case_decide; [by apply IH | done].
Qed.

Lemma alt_lit_app_s ps z :
  Forall (λ p, all (λ c, negb (bool_decide (c = "s"%char))) p = true) ps →
  alt lit ps Some (z +:+ "s") = (λ r, r +:+ "s") <$> alt lit ps Some z.
Proof.
  induction 1 as [|p ps Hp _ IH]; simpl; [done|].
  rewrite lit_app_s by done. by destruct (lit p z).
Qed.

Lemma sub_prefix_app_s z :
  sub_prefix ["dim_"; "tb_"; "tbl_"; "tab_"; "fact_"; "fato_"] (z +:+ "s")
  = sub_prefix ["dim_"; "tb_"; "tbl_"; "tab_"; "fact_"; "fato_"] z +:+ "s".
Proof.
  unfold sub_prefix. rewrite alt_lit_app_s by (by repeat constructor).
  by destruct (alt lit _ Some z).
Qed.

(** What [sub_prefix] returns is the end of the text. *)
Lemma sub_prefix_is_suffix ps z : ∃ q, z = q +:+ sub_prefix ps z.
Proof.
  unfold sub_prefix.
  destruct (alt lit ps Some z) as [r|] eqn:H; simpl; [|by exists ""].
  apply alt_lit_Some in H as (q & _ & ->); [|congruence]. by exists q.
Qed.

Lemma app_snoc_split a c q w :
  a +:+ String c "" = q +:+ w → w = "" ∨ ∃ w', w = w' +:+ String c "".
Proof.
  revert a. induction q as [|y q IH]; intros a H.
  - rewrite app_nil in H. subst. right. by exists a.
  - destruct a as [|x a].
    + rewrite app_nil, app_cons in H. injection H as _ H.
      destruct q; [|by rewrite app_cons in H]. rewrite app_nil in H.
      left. done.
    + rewrite !app_cons in H. injection H as _ H. by apply (IH a).
Qed.

Lemma suffix_here_inv s rest :
  suffix_here ["s"; "es"; "is"] s = Some rest →
  String.length s ≤ 3
  ∧ (s = "s" ∨ s = "es" ∨ s = "is"
     ∨ s = "s" +:+ nl ∨ s = "es" +:+ nl ∨ s = "is" +:+ nl).
Proof.
  unfold suffix_here. intros (q & r & Hq & -> & Hr)%alt_lit_inv.
  unfold eos, at_end in Hr.
  assert (r = "" ∨ r = nl) as [-> | ->]
    by (repeat case_bool_decide; simplify_eq/=; auto).
  all: repeat (apply elem_of_cons in Hq as [->|Hq];
               [split; [vm_compute; lia|]; vm_compute; tauto|]).
  all: by apply elem_of_nil in Hq.
Qed.

(** After a character other than [e] and [i], a final [s] is all that the
    suffix pattern takes off. *)
Lemma sub_suffix_plural w c :
  c ∉ ["e"; "i"]%char →
  sub_suffix ["s"; "es"; "is"] (w +:+ String c "s") = w +:+ String c "".
Proof.
  intros Hc. induction w as [|a w IH].
  - rewrite !app_nil. simpl.
    destruct (suffix_here _ (String c "s")) as [rest|] eqn:H.
    + apply suffix_here_inv in H as [_ H]. exfalso. apply Hc.
      destruct H as [H|[H|[H|[H|[H|H]]]]]; try discriminate H;
        injection H as ->; set_solver.
    + by vm_compute.
  - rewrite !app_cons. simpl. rewrite IH.
    destruct (suffix_here _ _) as [rest|] eqn:H; [|done].
    apply suffix_here_inv in H as [Hlen H]. exfalso.
    simpl in Hlen. rewrite length_app in Hlen. simpl in Hlen.
    assert (w = "") as -> by (destruct w; [done | simpl in Hlen; lia]).
    rewrite app_nil in H.
    destruct H as [H|[H|[H|[H|[H|H]]]]]; discriminate H.
Qed.

Lemma sub_suffix_singular w c :
  c ∉ ["s"; "010"]%char →
  sub_suffix ["s"; "es"; "is"] (w +:+ String c "") = w +:+ String c "".
Proof.
  intros Hc. apply sub_suffix_id.
  apply not_true_is_false. intros [r Hr]%search_suffix_plural.
  apply Hc. destruct Hr as [Hr|Hr].
  - apply app_snoc_inj in Hr as [_ ->]. set_solver.
  - change (r +:+ "s" +:+ nl) with (r +:+ ("s" +:+ String "010" "")) in Hr.
    rewrite <- str_app_assoc in Hr.
    apply app_snoc_inj in Hr as [_ ->]. set_solver.
Qed.

End Plural.

(** X3: when the lower-cased form of one name is the lower-cased form of
    another followed by [s], both names have the same normalised form,
    provided the shorter lower-cased form ends in a character that is none
    of [e], [i], [s] and the line break. *)
Theorem plural_s_is_ignored (singular plural x : string) (c : ascii) :
  Str.lower singular = x +:+ String c "" →
  Str.lower plural = x +:+ String c "s" →
  c ∉ ["e"; "i"; "s"; "010"]%char →
  _normalize_table_name plural = _normalize_table_name singular.
Proof.
  intros Hsingular Hplural Hc. unfold _normalize_table_name.
  rewrite Hsingular, Hplural.
  change (String c "s") with (String c "" +:+ "s").
  rewrite <- str_app_assoc, sub_prefix_app_s.
  destruct (sub_prefix_is_suffix
              ["dim_"; "tb_"; "tbl_"; "tab_"; "fact_"; "fato_"]
              (x +:+ String c ""))
    as [q Hq].
  set (w := Re.sub_prefix _ (x +:+ String c "")) in *. clearbody w.
  apply not_elem_of_cons in Hc as [He Hc].
  apply not_elem_of_cons in Hc as [Hi Hc].
  apply app_snoc_split in Hq as [-> | [w' ->]].
  - by vm_compute.
  - rewrite str_app_assoc.
    change (String c "" +:+ "s") with (String c "s").
    assert (c ∉ ["e"; "i"]%char) as Hei.
    { rewrite !not_elem_of_cons. repeat split; [done..|apply not_elem_of_nil]. }
    by rewrite (sub_suffix_plural _ _ Hei), (sub_suffix_singular _ _ Hc).
Qed.

Lemma plural_s_is_ignored_witness :
  _normalize_table_name "dim_PRODUTOS" = _normalize_table_name "Dim_Produto".
Proof.
  apply (plural_s_is_ignored "Dim_Produto" "dim_PRODUTOS" "dim_produt" "o").
  - reflexivity.
  - reflexivity.
  - by_computation.
Defined.

(** The condition on the last character matters: after [e] the pattern
    takes [es] off, and [clientes] is normalised to [client], not to
    [cliente]. *)
Example plural_after_e :
  _normalize_table_name "clientes" = "client"
  ∧ _normalize_table_name "cliente" = "cliente".
Proof. by vm_compute. Qed.

(** ** Variations *)

Lemma variations_size (token : string) :
  1 ≤ size (_get_all_table_variations token) ≤ 4.
Proof.
  unfold _get_all_table_variations.
  set (base := _normalize_table_name token). split.
  - assert (size (∅ ∪ {[base]} ∪ {[base +:+ "s"]} ∪ {[base +:+ "es"]}
              ∪ {[Str.remove Str.is_vowel base]} : gset string) ≠ 0);
      [|lia].
    apply size_non_empty_iff. set_solver.
  - assert (∀ (X : gset string) x, size (X ∪ {[x]}) ≤ S (size X)) as Hadd.
    { intros X x. rewrite size_union_alt.
      pose proof (subseteq_size ({[x]} ∖ X) {[x]}) as Hle.
      rewrite size_singleton in Hle. specialize (Hle ltac:(set_solver)). lia. }
    repeat (etrans; [apply Hadd|]; apply le_n_S).
    by rewrite size_empty.
Qed.

(** X4: the variation set of a token has between one and four elements,
    and each of them, like a normalised table name, holds no underscore
    and no character that [lower] would change. *)
Theorem variations_are_few_and_normal (token : string) :
  1 ≤ size (_get_all_table_variations token) ≤ 4
  ∧ ∀ v, v ∈ _get_all_table_variations token →
      Str.all not_underscore v = true ∧ Str.lower v = v.
Proof.
  split; [apply variations_size|].
  unfold _get_all_table_variations.
  set (base := _normalize_table_name token).
  pose proof (normalize_no_underscore token) as Hund.
  pose proof (normalize_lower token) as Hlow.
  fold base in Hund, Hlow.
  intros v Hv.
    assert (v = base ∨ v = base +:+ "s" ∨ v = base +:+ "es"
            ∨ v = Str.remove Str.is_vowel base) as Hcases by set_solver.
    clear Hv. destruct Hcases as [->|[->|[->| ->]]].
    + split; [done | by apply lower_id].
    + split; [by rewrite all_app, Hund|].
      apply lower_id. by rewrite all_app, Hlow.
    + split; [by rewrite all_app, Hund|].
      apply lower_id. by rewrite all_app, Hlow.
    + split; [by apply all_remove | by apply lower_id, all_remove].
Qed.

(** ** Pattern matching *)

Section Patterns.
Import Str Re.

Lemma dict_set_fresh {V} (d : list (string * V)) k v :
  k ∉ d.*1 → dict_set d k v = d ++ [(k, v)].
Proof.
  induction d as [|[k' v'] d IH]; simpl; [done|].
  intros [? ?]%not_elem_of_cons. rewrite decide_False by done.
  by rewrite IH.
Qed.

Lemma omap_entry_keys column_name patterns k :
  k ∈ (omap (entry_of column_name) patterns).*1 → k ∈ patterns.*1.
Proof.
  intros ([k' g] & -> & ([n f] & Hin & Hf)%list_elem_of_omap)%list_elem_of_fmap.
  unfold entry_of in Hf. simpl in *.
  destruct (f column_name); simplify_eq/=.
  apply list_elem_of_fmap. by exists (k', f).
Qed.

Lemma matches_of_omap patterns column_name :
  NoDup patterns.*1 →
  matches_of patterns column_name = omap (entry_of column_name) patterns.
Proof.
  unfold matches_of. intros Hnd.
  assert (∀ acc,
    (∀ k, k ∈ acc.*1 → k ∉ patterns.*1) →
    foldl (matches_step column_name) acc patterns
    = acc ++ omap (entry_of column_name) patterns) as Hgen.
  { induction patterns as [|[n f] ps IH]; intros acc Hacc; simpl.
    - by rewrite app_nil_r.
    - apply NoDup_cons in Hnd as [Hn Hnd]. simpl in *.
      unfold entry_of at 1. simpl.
      destruct (f column_name) as [g|] eqn:Hf; simpl.
      + rewrite IH; [|done|].
        * rewrite dict_set_fresh; [by rewrite <- app_assoc|].
          intros Hin. apply Hacc in Hin. apply Hin. left.
        * intros k. rewrite dict_set_fresh.
          2:{ intros Hin. apply Hacc in Hin. apply Hin. left. }
          rewrite fmap_app. intros [Hk|Hk]%elem_of_app.
          -- apply Hacc in Hk. by apply not_elem_of_cons in Hk as [_ ?].
          -- apply list_elem_of_singleton in Hk as ->. done.
      + apply IH; [done|]. intros k Hk. apply Hacc in Hk.
        by apply not_elem_of_cons in Hk as [_ ?]. }
  apply (Hgen []). by intros k []%elem_of_nil.
Qed.

End Patterns.

Section Captures.
Import Str Re.

Lemma is_word_lower c : is_word (lower_char c) = is_word c.
Proof. by destruct c as [[] [] [] [] [] [] [] []]. Qed.

Lemma all_word_lower a : all is_word (lower a) = all is_word a.
Proof.
  induction a as [|c a IH]; simpl; [done|]. by rewrite is_word_lower, IH.
Qed.

Lemma lit_ci_Some p s r :
  lit_ci p s = Some r → ∃ a, s = a +:+ r ∧ lower a = p.
Proof.
  revert s. induction p as [|x p IH]; intros s H.
  - destruct s; simplify_eq/=; by exists "".
  - destruct s as [|c s]; simplify_eq/=. case_decide; [|done]. subst.
    apply IH in H as (a & -> & <-). by exists (String c a).
Qed.

(** A text is matched in full by the literal it lower-cases to. *)
Lemma lit_ci_lower a : lit_ci (lower a) a = Some "".
Proof.
  induction a as [|c a IH]; simpl; [done|]. by rewrite decide_True.
Qed.

Lemma alt_inv {A} m ps (k : string → option A) s x :
  alt m ps k s = Some x →
  ∃ p r, p ∈ ps ∧ m p s = Some r ∧ k r = Some x.
Proof.
  induction ps as [|p ps IH]; simpl; [done|].
  destruct (m p s) as [r|] eqn:Hp; simpl.
  - destruct (k r) as [x'|] eqn:Hr.
    + intros [= <-]. exists p, r. by repeat split; [left|..].
    + intros (q & r' & ? & ? & ?)%IH. exists q, r'. by repeat split; [right|..].
  - intros (q & r' & ? & ? & ?)%IH. exists q, r'. by repeat split; [right|..].
Qed.

Lemma word_plus_Some {A} (k : string → option A) s w x :
  word_plus k s = Some (w, x) →
  w ≠ "" ∧ all is_word w = true ∧ ∃ r, s = w +:+ r ∧ k r = Some x.
Proof.
  revert w. induction s as [|c s IH]; intros w; simpl; [done|].
  destruct (is_word c) eqn:Hc; [|done].
  destruct (word_plus k s) as [[w' x']|] eqn:Hrec.
  - intros [= <- <-]. destruct (IH w' eq_refl) as (_ & Hw & r & -> & Hr).
    split; [done|]. split; [simpl; by rewrite Hc|]. by exists r.
  - destruct (k s) as [x'|] eqn:Hk; [|done]. intros [= <- <-].
    split; [done|]. split; [simpl; by rewrite Hc|]. by exists s.
Qed.

Lemma prefixed_Some ps s g :
  prefixed ps s = Some g →
  g ≠ "" ∧ all is_word g = true
  ∧ ∃ a r, lower a ∈ ps ∧ at_end r = true ∧ s = a +:+ g +:+ r.
Proof.
  unfold prefixed. destruct (alt lit_ci ps _ s) as [[w r]|] eqn:H; [|done].
  intros [= <-].
  apply alt_inv in H as (p & s' & Hp & Hlit & Hw).
  apply word_plus_Some in Hw as (? & ? & r' & -> & Hr').
  apply lit_ci_Some in Hlit as (a & -> & <-).
  unfold eos in Hr'. destruct (at_end r') eqn:Hend; [|done].
  do 2 (split; [done|]). by exists a, r'.
Qed.

Lemma suffixed_Some qs s g :
  suffixed qs s = Some g →
  g ≠ "" ∧ all is_word g = true
  ∧ ∃ a r q, q ∈ qs ∧ lower a = "_" +:+ q ∧ at_end r = true
             ∧ s = g +:+ a +:+ r.
Proof.
  unfold suffixed.
  destruct (word_plus _ s) as [[w r]|] eqn:H; [|done]. intros [= <-].
  apply word_plus_Some in H as (? & ? & s' & -> & Hk).
  destruct (lit_ci "_" s') as [s''|] eqn:Hu; [|done]. simpl in Hk.
  apply lit_ci_Some in Hu as (u & -> & Hu).
  apply alt_inv in Hk as (q & r' & Hq & Hlit & Hr').
  apply lit_ci_Some in Hlit as (a & -> & <-).
  unfold eos in Hr'. destruct (at_end r') eqn:Hend; [|done].
  do 2 (split; [done|]).
  exists (u +:+ a), r', (lower a). split; [done|].
  split; [by rewrite lower_app, Hu|]. split; [done|].
  by rewrite str_app_assoc.
Qed.

Lemma omap_entry_sublist column_name patterns :
  (omap (entry_of column_name) patterns).*1 `sublist_of` patterns.*1.
Proof.
  induction patterns as [|[n f] ps IH]; simpl; [done|].
  unfold entry_of at 1. simpl.
  destruct (f column_name); simpl; by constructor.
Qed.

End Captures.

(** X5: the dictionary [matches] of a column holds one entry for each of
    the six patterns that match its name, in the order of
    [relation_patterns]; no pattern hides another one. *)
Theorem matches_follow_pattern_order (column_name : string) :
  matches_of compiled_patterns column_name
  = omap (entry_of column_name) compiled_patterns
  ∧ (matches_of compiled_patterns column_name).*1
    `sublist_of` ["id_pattern"; "fk_pattern"; "table_id_pattern";
                  "ref_pattern"; "cod_pattern"; "num_pattern"].
Proof.
  rewrite (matches_of_omap _ _ compiled_patterns_NoDup).
  split; [done|]. apply omap_entry_sublist.
Qed.

(** X6: the text that a pattern captures from a column name is not empty,
    is made of word characters, and is a part of the name: the name is
    the captured text with a marker of that pattern and nothing else but a
    possible final line break. The marker is, letter case aside, one of
    the literals of the pattern, and is made of word characters: [id_] or
    [id], [fk_] or [fk], [ref_] or [reference_], [cod_] or [codigo_],
    [num_] or [numero_] before the captured text for the five patterns of
    that shape, and [_id], [_cd] or [_codigo] after it for
    [table_id_pattern]. A name with any other character matches no
    pattern. *)
Theorem captured_token_is_part_of_column (column_name p g : string) :
  (p, g) ∈ matches_of compiled_patterns column_name →
  g ≠ "" ∧ Str.all Str.is_word g = true
  ∧ ∃ literal marker rest,
      marker ≠ "" ∧ Str.all Str.is_word marker = true
      ∧ Re.lit_ci literal marker = Some ""
      ∧ Re.at_end rest = true
      ∧ ((p, literal)
           ∈ [ ("id_pattern", "id_"); ("id_pattern", "id");
               ("fk_pattern", "fk_"); ("fk_pattern", "fk");
               ("ref_pattern", "ref_"); ("ref_pattern", "reference_");
               ("cod_pattern", "cod_"); ("cod_pattern", "codigo_");
               ("num_pattern", "num_"); ("num_pattern", "numero_") ]
         ∧ column_name = marker +:+ g +:+ rest
         ∨ (p, literal)
             ∈ [ ("table_id_pattern", "_id"); ("table_id_pattern", "_cd");
                 ("table_id_pattern", "_codigo") ]
           ∧ column_name = g +:+ marker +:+ rest).
Proof.
  intros (pattern & Hp & Hg)%matches_of_sound.
  unfold compiled_patterns in Hp.
  assert (∀ a q qs, Str.lower a = q → q ∈ qs →
            Forall (λ q, q ≠ "" ∧ Str.all Str.is_word q = true) qs →
            a ≠ "" ∧ Str.all Str.is_word a = true) as Hmarker.
  { intros a q qs Ha Hq Hqs. rewrite Forall_forall in Hqs.
    destruct (Hqs q Hq) as [Hne Hw]. subst q. rewrite all_word_lower in Hw.
    split; [by intros ->|done]. }
  repeat (apply elem_of_cons in Hp as [[= -> ->]|Hp]);
    [..|by apply elem_of_nil in Hp].
  3:{ apply suffixed_Some in Hg as (? & ? & a & r & q & Hq & Ha & ? & ->).
      do 2 (split; [done|]). exists (Str.lower a), a, r.
      destruct (Hmarker a ("_" +:+ q)
                  ((λ q, "_" +:+ q) <$> ["id"; "cd"; "codigo"]))
        as [? ?]; [done|by apply list_elem_of_fmap_2|by repeat constructor|].
      do 2 (split; [done|]). split; [apply lit_ci_lower|]. split; [done|].
      right. split; [|done]. rewrite Ha.
      repeat (apply elem_of_cons in Hq as [->|Hq]; [by_computation|]).
      by apply elem_of_nil in Hq. }
  all: apply prefixed_Some in Hg as (? & ? & a & r & Ha & ? & ->);
    do 2 (split; [done|]); exists (Str.lower a), a, r;
    edestruct (Hmarker a) as [? ?];
      [done|exact Ha|by repeat constructor|];
    do 2 (split; [done|]); (split; [apply lit_ci_lower|]); (split; [done|]);
    left; (split; [|done]);
    repeat (apply elem_of_cons in Ha as [->|Ha]; [by_computation|]);
    by apply elem_of_nil in Ha.
Qed.

Lemma captured_token_is_part_of_column_witness :
  "cliente" ≠ "" ∧ Str.all Str.is_word "cliente" = true
  ∧ ∃ literal marker rest,
      marker ≠ "" ∧ Str.all Str.is_word marker = true
      ∧ Re.lit_ci literal marker = Some ""
      ∧ Re.at_end rest = true
      ∧ (("id_pattern", literal)
           ∈ [ ("id_pattern", "id_"); ("id_pattern", "id");
               ("fk_pattern", "fk_"); ("fk_pattern", "fk");
               ("ref_pattern", "ref_"); ("ref_pattern", "reference_");
               ("cod_pattern", "cod_"); ("cod_pattern", "codigo_");
               ("num_pattern", "num_"); ("num_pattern", "numero_") ]
         ∧ "ID_cliente" = marker +:+ "cliente" +:+ rest
         ∨ ("id_pattern", literal)
             ∈ [ ("table_id_pattern", "_id"); ("table_id_pattern", "_cd");
                 ("table_id_pattern", "_codigo") ]
           ∧ "ID_cliente" = "cliente" +:+ marker +:+ rest).
Proof.
  apply (captured_token_is_part_of_column "ID_cliente" "id_pattern").
  vm_compute. left.
Defined.

(** ** The dictionary of normalised table names *)

Lemma table_names_of_snoc keys k :
  table_names_of (keys ++ [k])
  = <[ _normalize_table_name k := k ]> (table_names_of keys).
Proof. unfold table_names_of. by rewrite foldl_app. Qed.

(** X7: when several tables have the same normalised name, the one that
    comes last in the catalog is the one the name resolves to. *)
Theorem last_table_wins (before after : list string) (k : string) :
  (∀ k', k' ∈ after →
     _normalize_table_name k' ≠ _normalize_table_name k) →
  table_names_of (before ++ k :: after) !! _normalize_table_name k = Some k.
Proof.
  induction after as [|k' after IH] using rev_ind; intros Hafter.
  - rewrite table_names_of_snoc. apply lookup_insert_eq.
  - rewrite app_comm_cons, app_assoc, table_names_of_snoc.
    rewrite lookup_insert_ne.
    + apply IH. intros k'' Hk''. apply Hafter, elem_of_app. by left.
    + apply Hafter, elem_of_app. right. left.
Qed.

Lemma last_table_wins_witness :
  table_names_of (["dim_cliente"; "dim_loja"] ++ "tb_cliente" :: ["fato_vendas"])
  !! _normalize_table_name "tb_cliente"
  = Some "tb_cliente".
Proof.
  apply (last_table_wins ["dim_cliente"; "dim_loja"] ["fato_vendas"]
           "tb_cliente").
  intros k' ->%list_elem_of_singleton. by vm_compute.
Defined.

(** X8: a token resolves to no table exactly when no table of the catalog
    has it as normalised name; when it resolves, it does so to a table of
    the catalog with that normalised name. *)
Theorem unresolved_token (keys : list string) (token : string) :
  (table_names_of keys !! token = None
   ↔ ∀ k, k ∈ keys → _normalize_table_name k ≠ token)
  ∧ ∀ k, table_names_of keys !! token = Some k →
      k ∈ keys ∧ _normalize_table_name k = token.
Proof.
  split; [|apply table_names_sound]. split.
  - intros Hnone k Hk <-.
    destruct (table_names_defined keys k Hk) as [k' Hk'].
    by rewrite Hnone in Hk'.
  - intros Hall. apply eq_None_not_Some. intros [k Hk].
    apply table_names_sound in Hk as [Hin Hnorm]. by apply (Hall k).
Qed.

(** ** The candidates of a run *)

(** X9: a candidate is recorded for a source table exactly when the
    conditions of the four loops hold for some column, pattern and target:
    a column of the table without declared foreign key, a pattern that
    matches its lower-cased name, and a variation of the captured text
    that resolves to another table; the candidate is then the record of
    lines 100-106 with the score of that column, pattern and target. *)
Theorem candidates_are_the_resolved_links (self : DatabaseAnalyzer) :
  ∃ rels,
    find_implicit_relationships self = Ok rels
    ∧ ∀ t c,
        c ∈ rels !!! t
        ↔ ∃ column p target,
            resolves self t column p target
            ∧ c = candidate self t (Str.lower (name column)) target p.
Proof.
  destruct (find_spec self) as (rels & Hfind & _ & Hrels).
  exists rels. split; [done|]. intros t c. rewrite Hrels, elem_of_emitted.
  split.
  - intros (table & column & p & g & v & target & ? & ? & ? & ? & ? & ? & ?
            & ->).
    exists column, p, target. split; [|done]. by exists table, g, v.
  - intros (column & p & target
            & (table & g & v & ? & ? & ? & ? & ? & ? & ?) & ->).
    by exists table, column, p, g, v, target.
Qed.

(** X10: every key of the returned dictionary is a table of the catalog
    and holds at least one candidate; every target is a table of the
    catalog other than the source, and its normalised name is a variation
    of a text captured from the source column. *)
Theorem keys_and_targets_are_catalog_tables (self : DatabaseAnalyzer) :
  ∃ rels,
    find_implicit_relationships self = Ok rels
    ∧ (∀ t l, rels !! t = Some l →
         l ≠ [] ∧ t ∈ (tables (metadata self)).*1)
    ∧ ∀ t c, c ∈ rels !!! t →
        target_table c ∈ (tables (metadata self)).*1
        ∧ target_table c ≠ t
        ∧ ∃ g,
            (pattern_matched c, g)
              ∈ matches_of (relation_patterns self) (source_column c)
            ∧ _normalize_table_name (target_table c)
                ∈ _get_all_table_variations g.
Proof.
  destruct (find_spec self) as (rels & Hfind & Hcollect & Hrels).
  exists rels. split; [done|]. split.
  - intros t l Htl. split.
    + assert (no_empty_list rels) as Hne; [|by apply (Hne t)].
      rewrite Hcollect. apply collect_no_empty_list.
      intros k l'. by rewrite lookup_empty.
    + assert (is_Some (collect ∅ (emitted self) !! t)) as Hsome
        by (rewrite <- Hcollect; eauto).
      apply collect_keys in Hsome as [Hsome|Hsome];
        [|by apply emitted_keys].
      rewrite lookup_empty in Hsome. by destruct Hsome.
  - intros t c (table & column & p & g & v & target & _ & _ & _ & Hm & Hv
                & Htn & Hself & ->)%Hrels%elem_of_emitted.
    simpl. apply table_names_sound in Htn as [Hin Hnorm].
    split; [done|]. split; [done|]. exists g. split; [done|].
    by rewrite Hnorm.
Qed.

(** X11: a catalog with at most one table gives an empty dictionary:
    every candidate needs a target other than its source. *)
Theorem single_table_gives_nothing (self : DatabaseAnalyzer) :
  length (tables (metadata self)) ≤ 1 →
  find_implicit_relationships self = Ok ∅.
Proof.
  intros Hlen. rewrite find_trace.
  assert (emitted self = []) as ->; [|done].
  destruct (emitted self) as [|[t c] L] eqn:HL; [done|].
  assert ((t, c) ∈ emitted self) as Hin by (rewrite HL; left).
  apply elem_of_emitted in Hin
    as (table & column & p & g & v & target & Ht & _ & _ & _ & _ & Htn
        & Hself & _).
  apply table_names_sound in Htn as [Htarget _].
  destruct (tables (metadata self)) as [|[t0 table0] [|? ?]];
    [by apply elem_of_nil in Ht| |simpl in Hlen; lia].
  apply list_elem_of_singleton in Ht as [= -> ->].
  simpl in Htarget. apply list_elem_of_singleton in Htarget. done.
Qed.

Lemma single_table_gives_nothing_witness :
  find_implicit_relationships
    (Sample.analyzer_on [("fato_vendas", Sample.fato_vendas)]
       (Sample.counting 1))
  = Ok ∅.
Proof.
  apply (single_table_gives_nothing
           (Sample.analyzer_on [("fato_vendas", Sample.fato_vendas)]
              (Sample.counting 1))).
  simpl. lia.
Defined.

(** ** What the answers of the database can change *)

Lemma emitted_same_but_confidence (self self' : DatabaseAnalyzer) :
  metadata self = metadata self' →
  relation_patterns self = relation_patterns self' →
  Forall2 (λ e e', e.1 = e'.1 ∧ same_but_confidence e.2 e'.2)
    (emitted self) (emitted self').
Proof.
  intros Hmeta Hpatterns. unfold emitted. rewrite <- Hmeta.
  apply Forall2_bind, Forall_Forall2_diag, Forall_forall.
  intros [t table] _. unfold emit_table. simpl.
  apply Forall2_bind, Forall_Forall2_diag, Forall_forall.
  intros column _. unfold emit_column. rewrite <- Hpatterns.
  case_bool_decide; [constructor|].
  apply Forall2_bind, Forall_Forall2_diag, Forall_forall.
  intros [p g] _. unfold emit_match. simpl.
  apply Forall2_bind, Forall_Forall2_diag, Forall_forall.
  intros v _. unfold emit_variation, table_names. rewrite <- Hmeta.
  destruct (table_names_of _ !! v) as [target|]; [|constructor].
  case_decide; constructor; [|constructor]. by repeat split.
Qed.

Lemma Forall2_at_key (L L' : list (string * Candidate)) t :
  Forall2 (λ e e', e.1 = e'.1 ∧ same_but_confidence e.2 e'.2) L L' →
  Forall2 same_but_confidence
    (filter (λ e, e.1 = t) L).*2 (filter (λ e, e.1 = t) L').*2.
Proof.
  induction 1 as [|[k c] [k' c'] L L' [Hk Hc] _ IH]; [constructor|].
  simpl in *. subst k'. rewrite !filter_cons. simpl.
  case_decide; simpl; [by constructor | done].
Qed.

(** X12: two analyzers on the same catalog with the same patterns record,
    for every source table, the same candidates, whatever their databases
    answer to the overlap queries: the answers change the confidences and
    nothing else. The variations of a token are visited in the order of a
    set, so the two lists are compared up to the order of their
    candidates: the candidates of one analyzer can be put in an order in
    which they agree one by one, confidence aside, with those of the
    other. *)
Theorem answers_only_change_confidence (self self' : DatabaseAnalyzer) :
  metadata self = metadata self' →
  relation_patterns self = relation_patterns self' →
  ∃ rels rels',
    find_implicit_relationships self = Ok rels
    ∧ find_implicit_relationships self' = Ok rels'
    ∧ ∀ t,
        (∃ reordered,
           reordered ≡ₚ rels !!! t
           ∧ Forall2 same_but_confidence reordered (rels' !!! t))
        ∧ (is_Some (rels !! t) ↔ is_Some (rels' !! t)).
Proof.
  intros Hmeta Hpatterns.
  pose proof (emitted_same_but_confidence self self' Hmeta Hpatterns) as HL.
  exists (collect ∅ (emitted self)), (collect ∅ (emitted self')).
  split; [apply find_trace|]. split; [apply find_trace|].
  intros t.
  assert (Forall2 same_but_confidence (collect ∅ (emitted self) !!! t)
            (collect ∅ (emitted self') !!! t)) as Ht.
  { rewrite !collect_total, !lookup_total_empty. simpl.
    by apply Forall2_at_key. }
  split; [by exists (collect ∅ (emitted self) !!! t)|].
  assert (∀ L : list (string * Candidate),
            is_Some (collect ∅ L !! t) ↔ collect ∅ L !!! t ≠ []) as Hsome.
  { intros L. rewrite lookup_total_alt. split.
    - intros [l Hl]. rewrite Hl. simpl.
      apply (collect_no_empty_list ∅ L) in Hl; [done|].
      intros k l'. by rewrite lookup_empty.
    - destruct (collect ∅ L !! t); [eauto | done]. }
  rewrite !Hsome. apply Forall2_length in Ht.
  split; intros Hne Hnil; apply Hne; rewrite Hnil in Ht; simpl in Ht;
    by apply nil_length_inv.
Qed.

Lemma answers_only_change_confidence_witness :
  ∃ rels rels',
    find_implicit_relationships (Sample.analyzer_of Sample.rejecting) = Ok rels
    ∧ find_implicit_relationships (Sample.analyzer_of (Sample.counting 3))
      = Ok rels'
    ∧ ∀ t,
        (∃ reordered,
           reordered ≡ₚ rels !!! t
           ∧ Forall2 same_but_confidence reordered (rels' !!! t))
        ∧ (is_Some (rels !! t) ↔ is_Some (rels' !! t)).
Proof.
  apply (answers_only_change_confidence (Sample.analyzer_of Sample.rejecting)
           (Sample.analyzer_of (Sample.counting 3)));
    reflexivity.
Defined.

(** ** Confidence and the threshold of 0.8 *)

(** X13: a pattern name that the table of weights does not list gets the
    weight 0.3 of line 130: the scorer returns 0.5 when the overlap query
    counts at least one value, and 0.3 when it counts none or raises. *)
Theorem unlisted_pattern_scores_low (self : DatabaseAnalyzer)
    (s t c p : string) :
  p ∉ ["id_pattern"; "fk_pattern"; "table_id_pattern"; "ref_pattern";
       "cod_pattern"; "num_pattern"] →
  _calculate_relationship_confidence self s t c p
  = Ok match sampled self s t c with
       | Ok count => if (0 <? count)%Z then 0.5%float else 0.3%float
       | Raise _ => 0.3%float
       end.
Proof.
  intros Hp. rewrite confidence_score. f_equal.
  assert (base_weight p = 0.3%float) as Hbase.
  { unfold base_weight, pattern_confidence. simpl.
    repeat (case_decide; [exfalso; apply Hp; subst p; by_computation|]).
    done. }
  unfold score. rewrite Hbase.
  destruct (sampled self s t c) as [count|]; [|done].
  by destruct (0 <? count)%Z.
Qed.

Lemma unlisted_pattern_scores_low_witness :
  _calculate_relationship_confidence (Sample.analyzer_of (Sample.counting 2))
    "fato_vendas" "dim_loja" "loja" "name_pattern"
  = Ok 0.5%float.
Proof.
  apply (unlisted_pattern_scores_low (Sample.analyzer_of (Sample.counting 2))
           "fato_vendas" "dim_loja" "loja" "name_pattern").
  intros Hin. apply (bool_decide_pack _) in Hin. by vm_compute in Hin.
Defined.

(** X14: a candidate of a report is counted as of high confidence (at
    least 0.8) exactly when its pattern is [id_pattern], [fk_pattern] or
    [table_id_pattern], or its pattern is [ref_pattern] or [cod_pattern]
    and its overlap query counted at least one value; a candidate of
    [num_pattern] never is. *)
Theorem high_confidence_candidates
    (create_engine : string → result Engine) (url : string)
    (self : DatabaseAnalyzer) :
  __init__ create_engine url = Ok self →
  ∃ rels,
    find_implicit_relationships self = Ok rels
    ∧ ∀ t c, c ∈ rels !!! t →
        (is_high c
         ↔ pattern_matched c
             ∈ ["id_pattern"; "fk_pattern"; "table_id_pattern"]
           ∨ (pattern_matched c ∈ ["ref_pattern"; "cod_pattern"]
              ∧ confirmed self t c)).
Proof.
  intros (_ & _ & Hpatterns)%init_inv.
  destruct (find_spec self) as (rels & Hfind & _ & Hrels).
  exists rels. split; [done|].
  intros t c (table & column & p & g & v & target & _ & _ & _ & Hm & _ & _
              & _ & ->)%Hrels%elem_of_emitted.
  rewrite Hpatterns in Hm.
  apply matches_of_sound in Hm as (pattern & Hp & _).
  unfold confirmed, is_high. simpl. unfold score.
  set (col := Str.lower (name column)).
  destruct (sampled self t target col) as [count|e] eqn:Hs;
    [destruct (0 <? count)%Z eqn:Hpos|].
  all: unfold compiled_patterns in Hp;
    repeat (apply elem_of_cons in Hp as [[= -> _]|Hp]);
    [..|by apply elem_of_nil in Hp].
  all: split;
    [ intros Hhigh; vm_compute in Hhigh; try discriminate Hhigh;
      first [ left; by_computation
            | right; split; [by_computation|];
              exists count; split; [done|]; by apply Z.ltb_lt ]
    | intros [Hin|[Hin (count' & Hcount & Hlt)]];
      first [ by vm_compute
            | apply (bool_decide_pack _) in Hin; by vm_compute in Hin
            | discriminate Hcount
            | injection Hcount as <-; apply Z.ltb_ge in Hpos; lia ] ].
Qed.

Lemma high_confidence_candidates_witness :
  ∃ rels,
    find_implicit_relationships (Orders.order_analyzer (Sample.counting 0))
    = Ok rels
    ∧ ∀ t c, c ∈ rels !!! t →
        (is_high c
         ↔ pattern_matched c
             ∈ ["id_pattern"; "fk_pattern"; "table_id_pattern"]
           ∨ (pattern_matched c ∈ ["ref_pattern"; "cod_pattern"]
              ∧ confirmed (Orders.order_analyzer (Sample.counting 0)) t c)).
Proof.
  apply (high_confidence_candidates
           (Sample.connect (Sample.engine_on Orders.order_catalog
                              (Sample.counting 0)))
           Sample.location).
  reflexivity.
Defined.

(** ** Statistics, without any assumption on the catalog *)

Lemma values_no_empty_list (rels : gmap string (list Candidate)) :
  no_empty_list rels → Forall (λ l, l ≠ []) (values rels).
Proof.
  intros Hne. apply Forall_forall.
  intros l ([k l'] & -> & Hin)%list_elem_of_fmap.
  apply elem_of_map_to_list in Hin. by apply (Hne k).
Qed.

Lemma size_list_to_set_le (names : list string) :
  size (list_to_set (C := gset string) names) ≤ length names.
Proof.
  induction names as [|n names IH].
  - by rewrite list_to_set_nil, size_empty.
  - rewrite list_to_set_cons, size_union_alt, size_singleton.
    pose proof (subseteq_size (list_to_set names ∖ {[n]})
                  (list_to_set (C := gset string) names)
                  ltac:(set_solver)).
    simpl. lia.
Qed.

(** X15: in every report the number of tables with candidates is at most
    the number of candidates and at most the number of tables of the
    catalog, the number of candidates of high confidence is at most the
    number of candidates, and the three numbers are zero exactly when the
    dictionary of relationships is empty. *)
Theorem statistics_are_ordered (self : DatabaseAnalyzer) :
  ∃ report,
    analyze_and_suggest_relationships self = Ok report
    ∧ let stats := statistics report in
      tables_with_implicit_relations stats ≤ total_implicit_relationships stats
      ∧ tables_with_implicit_relations stats
        ≤ length (tables (metadata self))
      ∧ high_confidence_relations stats ≤ total_implicit_relationships stats
      ∧ (total_implicit_relationships stats = 0
         ↔ relationships report = ∅)
      ∧ (tables_with_implicit_relations stats = 0
         ↔ relationships report = ∅).
Proof.
  destruct (analyze_spec self)
    as (report & Hrun & Hfind & _ & Htotal & Hsize & Hhigh).
  exists report. split; [done|]. simpl.
  rewrite find_trace in Hfind. injection Hfind as Hrels.
  set (rels := relationships report) in *.
  assert (no_empty_list rels) as Hne.
  { rewrite <- Hrels. apply collect_no_empty_list.
    intros k l. by rewrite lookup_empty. }
  apply values_no_empty_list in Hne.
  assert (size rels = length (values rels)) as Hlen.
  { unfold values. by rewrite length_fmap, length_map_to_list. }
  rewrite Htotal, Hsize, Hhigh, high_count, Hlen.
  split; [|split; [|split; [|split]]].
  - clear -Hne. induction Hne as [|l ls Hl _ IH]; simpl; [done|].
    destruct l; [done|]. simpl. lia.
  - rewrite <- Hlen, <- size_dom.
    trans (size (list_to_set (C := gset string) (tables (metadata self)).*1)).
    + apply subseteq_size. intros k Hk. apply elem_of_dom in Hk.
      apply elem_of_list_to_set. rewrite <- Hrels in Hk.
      apply collect_keys in Hk as [Hk|Hk]; [|by apply emitted_keys].
      rewrite lookup_empty in Hk. by destruct Hk.
    + rewrite <- (length_fmap fst (tables (metadata self))).
      apply size_list_to_set_le.
  - clear. induction (values rels) as [|l ls IH]; simpl; [done|].
    pose proof (length_filter is_high l). lia.
  - split.
    + intros Hzero. apply map_to_list_empty_iff.
      destruct (map_to_list rels) as [|[k l] m] eqn:Hm; [done|].
      unfold values in *. rewrite Hm in *. simpl in *.
      apply Forall_cons in Hne as [Hl _]. destruct l; [done|].
      simpl in Hzero. lia.
    + intros ->. unfold values. by rewrite map_to_list_empty.
  - split.
    + intros Hzero. apply map_to_list_empty_iff.
      unfold values in Hzero. rewrite length_fmap in Hzero.
      by apply nil_length_inv.
    + intros ->. unfold values. by rewrite map_to_list_empty.
Qed.

(** ** Construction, run and script *)

(** X16: the constructor succeeds exactly when the engine is created, the
    catalog is reflected and the inspector is obtained; the analyzer then
    holds the reflected tables and the six patterns. A failure to create
    the engine or to obtain the inspector reaches the caller as the
    exception raised. *)
Theorem construction_outcomes (create_engine : string → result Engine)
    (url : string) :
  (∀ self,
     __init__ create_engine url = Ok self
     ↔ ∃ db found insp,
         create_engine url = Ok db
         ∧ reflect db = Ok found
         ∧ inspect db = Ok insp
         ∧ self = {| url := url;
                     engine := db;
                     metadata := {| tables := found |};
                     inspector := insp;
                     logger := {| logger_name := "__main__" |};
                     relation_patterns := compiled_patterns |})
  ∧ (∀ e, create_engine url = Raise e →
       __init__ create_engine url = Raise e)
  ∧ (∀ db found e,
       create_engine url = Ok db → reflect db = Ok found →
       inspect db = Raise e →
       __init__ create_engine url = Raise e).
Proof.
  unfold __init__, _get_all_metadata. split; [|split].
  - intros self. split.
    + destruct (create_engine url) as [db|e]; simpl; [|done].
      destruct (reflect db) as [found|e] eqn:Hfound; simpl; [|done].
      destruct (inspect db) as [insp|e] eqn:Hinsp; simpl; [|done].
      intros [= <-]. by exists db, found, insp.
    + intros (db & found & insp & -> & Hfound & Hinsp & ->). simpl.
      rewrite Hfound. simpl. by rewrite Hinsp.
  - by intros e ->.
  - intros db found e -> Hfound Hinsp. simpl.
    rewrite Hfound. simpl. by rewrite Hinsp.
Qed.

(** X17: once the analyzer is built the run returns a report, whatever the
    database answers or raises afterwards; and when the constructor
    raises, the program raises the same exception. *)
Theorem run_fails_only_in_construction
    (create_engine : string → result Engine) (url : string) :
  (∀ self,
     __init__ create_engine url = Ok self →
     ∃ report,
       main create_engine url = Ok report
       ∧ analyze_and_suggest_relationships self = Ok report
       ∧ find_implicit_relationships self = Ok (relationships report))
  ∧ (∀ e,
       __init__ create_engine url = Raise e →
       main create_engine url = Raise e).
Proof.
  unfold main. split.
  - intros self ->. simpl.
    destruct (analyze_spec self) as (report & Hrun & Hfind & _).
    by exists report.
  - by intros e ->.
Qed.

(** X18: the script raises [ValueError], before any engine is created,
    when the variable [database_url] is missing or empty, and runs the
    analysis on its value otherwise; the variable is looked up under its
    lower-case name, so a variable [DATABASE_URL], the name in the
    message of the error, has no effect. *)
Theorem script_reads_lower_case_variable
    (create_engine : string → result Engine)
    (environ : gmap string string) :
  (environ !! "database_url" = None ∨ environ !! "database_url" = Some "" →
   ∃ e, __main__ create_engine environ = Raise e
        ∧ exn_class e = "ValueError")
  ∧ (∀ url, environ !! "database_url" = Some url → url ≠ "" →
       __main__ create_engine environ = main create_engine url)
  ∧ ∀ value,
      __main__ create_engine (<[ "DATABASE_URL" := value ]> environ)
      = __main__ create_engine environ.
Proof.
  unfold __main__. split; [|split].
  - intros H. rewrite bool_decide_eq_true_2 by done. eauto.
  - intros url Hurl Hne. rewrite Hurl.
    rewrite bool_decide_eq_false_2; [done|]. intros [[=]|[=]]. done.
  - intros value. by rewrite lookup_insert_ne.
Qed.

(** ** How many candidates a catalog can give *)

Lemma values_insert_fresh {V} (m : gmap string V) k x :
  m !! k = None → values (<[k := x]> m) ≡ₚ x :: values m.
Proof.
  intros H. unfold values. by rewrite (map_to_list_insert m k x H).
Qed.

Lemma sum_values_append_to (r : gmap string (list Candidate)) k c :
  sum_list_with length (values (append_to r k c))
  = S (sum_list_with length (values r)).
Proof.
  unfold append_to. destruct (r !! k) as [l|] eqn:Hk; simpl.
  - rewrite <- insert_delete_eq.
    rewrite values_insert_fresh by apply lookup_delete_eq.
    rewrite (values_delete r k l Hk). simpl.
    rewrite List.length_app. simpl. lia.
  - by rewrite values_insert_fresh.
Qed.

(** The total of a report counts every append once. *)
Lemma sum_values_collect (r : gmap string (list Candidate)) L :
  sum_list_with length (values (collect r L))
  = sum_list_with length (values r) + length L.
Proof.
  revert r. induction L as [|[k c] L IH]; intros r; simpl; [lia|].
  rewrite IH, sum_values_append_to. lia.
Qed.

Lemma length_bind_sum {A B} (f : A → list B) (l : list A) :
  length (l ≫= f) = sum_list_with (λ x, length (f x)) l.
Proof.
  induction l as [|x l IH]; [done|].
  rewrite bind_cons, List.length_app, IH. done.
Qed.

Lemma sum_list_with_le {A} (f g : A → nat) (l : list A) :
  (∀ x, x ∈ l → f x ≤ g x) → sum_list_with f l ≤ sum_list_with g l.
Proof.
  induction l as [|x l IH]; intros H; simpl; [done|].
  pose proof (H x ltac:(left)).
  specialize (IH (λ y Hy, H y ltac:(by right))). lia.
Qed.

Lemma sum_list_with_const {A} (n : nat) (l : list A) :
  sum_list_with (λ _, n) l = n * length l.
Proof. induction l as [|x l IH]; simpl; lia. Qed.

Lemma sum_list_with_mul {A} (n : nat) (f : A → nat) (l : list A) :
  sum_list_with (λ x, n * f x) l = n * sum_list_with f l.
Proof. induction l as [|x l IH]; simpl; lia. Qed.

Lemma sum_list_with_scaled {A} (P : A → Prop) `{!∀ x, Decision (P x)}
    (n : nat) (l : list A) :
  sum_list_with (λ x, if decide (P x) then n else 0) l
  = n * length (filter P l).
Proof.
  induction l as [|x l IH]; simpl; [lia|].
  rewrite filter_cons. case_decide; simpl; lia.
Qed.

Lemma length_omap_le {A B} (f : A → option B) (l : list A) :
  length (omap f l) ≤ length l.
Proof.
  induction l as [|x l IH]; csimpl; [done|]. destruct (f x); csimpl; lia.
Qed.

(** X19: the number of candidates of a report is at most 24 for each
    column of the catalog that carries no declared foreign key: six
    patterns, and four variations for each. *)
Theorem candidates_are_bounded
    (create_engine : string → result Engine) (url : string)
    (self : DatabaseAnalyzer) :
  __init__ create_engine url = Ok self →
  ∃ report,
    analyze_and_suggest_relationships self = Ok report
    ∧ total_implicit_relationships (statistics report)
      ≤ 24 * sum_list_with
               (λ entry,
                  length (filter (λ column, foreign_keys column = ∅)
                            (columns entry.2)))
               (tables (metadata self)).
Proof.
  intros (_ & _ & Hpatterns)%init_inv.
  destruct (analyze_spec self) as (report & Hrun & Hfind & _ & Htotal & _).
  exists report. split; [done|].
  rewrite find_trace in Hfind. injection Hfind as Hrels.
  rewrite Htotal, <- Hrels, sum_values_collect.
  unfold values at 1. rewrite map_to_list_empty, fmap_nil.
  change (sum_list_with length []) with 0. rewrite Nat.add_0_l.
  unfold emitted. rewrite length_bind_sum, <- sum_list_with_mul.
  apply sum_list_with_le. intros [t table] _.
  unfold emit_table. cbn [fst snd].
  rewrite length_bind_sum, <- sum_list_with_scaled.
  apply sum_list_with_le. intros column _.
  unfold emit_column. case_bool_decide as Hfk.
  { simpl. lia. }
  rewrite decide_True by done.
  rewrite length_bind_sum, Hpatterns.
  etrans; [apply (sum_list_with_le _ (λ _, 4))|].
  - intros [p g] _. unfold emit_match. simpl. rewrite length_bind_sum.
    etrans; [apply (sum_list_with_le _ (λ _, 1))|].
    + intros v _. unfold emit_variation.
      destruct (table_names self !! v); [|simpl; lia].
      case_decide; simpl; lia.
    + rewrite sum_list_with_const.
      pose proof (variations_size g) as [_ Hsize].
      unfold size, set_size in Hsize. simpl in Hsize. lia.
  - rewrite sum_list_with_const.
    rewrite (matches_of_omap _ _ compiled_patterns_NoDup).
    pose proof (length_omap_le (entry_of (Str.lower (name column)))
                  compiled_patterns) as Hle.
    change (length compiled_patterns) with 6 in Hle. lia.
Qed.

Lemma candidates_are_bounded_witness :
  ∃ report,
    analyze_and_suggest_relationships
      (Orders.order_analyzer Sample.rejecting) = Ok report
    ∧ total_implicit_relationships (statistics report)
      ≤ 24 * sum_list_with
               (λ entry,
                  length (filter (λ column, foreign_keys column = ∅)
                            (columns entry.2)))
               Orders.order_catalog.
Proof.
  apply (candidates_are_bounded
           (Sample.connect (Sample.engine_on Orders.order_catalog
                              Sample.rejecting))
           Sample.location (Orders.order_analyzer Sample.rejecting)).
  reflexivity.
Defined.
